(** * simple_dial: a shallow embedding of the [Dial] widget

    The widget of [simple_dial.py] is embedded as pure functions over an
    explicit widget state.  Integers of the source are [Z]; the floats
    the caller supplies ([min_value], [max_value], [value],
    [tick_label_scale]) and the float arithmetic of [_adjust_dimensions]
    are exact rationals ([Q]); everything that goes through [math.pi],
    [math.sin] or [math.cos] is a real number ([R]).  Floats are
    idealised: no rounding error, no NaN, no infinity.

    The host toolkit ([displayio], [vectorio], [bitmaptools],
    [bitmap_label]) is not interpreted.  A bitmap is its size together
    with the ordered list of the drawing calls that were applied to it. *)

From Stdlib Require Import ZArith QArith Qround Qreals Reals List String Bool Lia Lra.

Import ListNotations.

Open Scope Z_scope.

(** ** Exceptions and the error monad *)

Inductive py_exception : Type :=
| ValueError (msg : string)          (* the [raise] statement of [_adjust_dimensions] *)
| UnboundLocalError (name : string)  (* interpreter: a local read before assignment *)
| ZeroDivisionError.                 (* interpreter: [/] with a zero divisor *)

(** An exception is deliberate when a [raise] statement of the module
    produces it; the module has exactly one, raising [ValueError]. *)
Definition raised_by_statement (e : py_exception) : bool :=
  match e with
  | ValueError _ => true
  | UnboundLocalError _ => false
  | ZeroDivisionError => false
  end.

Inductive result (A : Type) : Type :=
| Ok (a : A)
| Raise (e : py_exception).

Arguments Ok {A} a.

Arguments Raise {A} e.

Definition bind {A B : Type} (c : result A) (k : A -> result B) : result B :=
  match c with
  | Ok a => k a
  | Raise e => Raise e
  end.

Notation "x <- c ;; k" := (bind c (fun x => k))
  (at level 61, c at next level, right associativity).

Definition succeeds {A : Type} (c : result A) : bool :=
  match c with Ok _ => true | Raise _ => false end.

(** ** Python numeric builtins, on exact rationals *)

Module PyQ.

(** [round(x)]: nearest integer, ties to the even one. *)
Definition round (x : Q) : Z :=
  let f := Qfloor x in
  match Qcompare (x - inject_Z f)%Q (1 # 2)%Q with
  | Lt => f
  | Gt => f + 1
  | Eq => if Z.even f then f else f + 1
  end.

(** [math.ceil(x)]. *)
Definition ceil (x : Q) : Z := Qceiling x.

(** [int(x)]: truncation towards zero. *)
Definition int (x : Q) : Z :=
  if Qle_bool 0%Q x then Qfloor x else Qceiling x.

(** [min(a, b)] and [max(a, b)] keep the first argument unless the
    second is strictly better. *)
Definition min (a b : Q) : Q := if Qle_bool a b then a else b.

Definition max (a b : Q) : Q := if Qle_bool b a then a else b.

End PyQ.

(** ** Dimensions *)

Record Dimensions : Type := {
  dim_width : Z;
  dim_height : Z;
  dim_center : Z * Z;
  dim_radius : Z
}.

Definition zero_box_msg : string :=
  "Width, height, or padding size makes zero sized box".

(** [Dial._adjust_dimensions].  The attributes it assigns ([_width],
    [_height], [_dial_center], [_dial_radius]) are returned together;
    [_padding] is the attribute it reads. *)
Definition _adjust_dimensions (_padding width height : Z) : result Dimensions :=
  let left : Q := 0%Q in
  let top : Q := 0%Q in
  let right : Q := 1%Q in
  let bottom : Q := 1%Q in
  let x_center_calc : Q := (1 # 2)%Q in
  let y_center_calc : Q := (1 # 2)%Q in
  if (width - 2 * _padding <? 0) || (height - 2 * _padding <? 0) then
    Raise (ValueError zero_box_msg)
  else
    let box_aspect_ratio := ((right - left) / (bottom - top))%Q in
    let _height :=
      PyQ.ceil (inject_Z (width - 2 * _padding) / box_aspect_ratio)%Q
      + 2 * _padding in
    let radius :=
      PyQ.round (inject_Z (width - 2 * _padding) / (2 * (right - left)))%Q in
    let center_x := PyQ.round (x_center_calc * inject_Z radius * 2)%Q + _padding in
    let center_y := PyQ.round (y_center_calc * inject_Z radius * 2)%Q + _padding in
    Ok {| dim_width := width;
          dim_height := _height;
          dim_center := (center_x, center_y);
          dim_radius := radius |}.

(** ** Python numeric builtins, on reals *)

Module PyR.

Definition floor (x : R) : Z := Int_part x.

(** [round(x)]: nearest integer, ties to the even one. *)
Definition round (x : R) : Z :=
  let f := floor x in
  if Rlt_dec (x - IZR f) (1 / 2) then f
  else if Rlt_dec (1 / 2) (x - IZR f) then f + 1
  else if Z.even f then f else f + 1.

(** [int(x)]: truncation towards zero. *)
Definition int (x : R) : Z :=
  if Rle_dec 0 x then floor x else - floor (- x).

(** [round(x, ndigits)]. *)
Definition round_ndigits (x : R) (ndigits : nat) : R :=
  (IZR (round (x * 10 ^ ndigits)) / 10 ^ ndigits)%R.

End PyR.

(** [range(n)]. *)
Definition py_range (n : Z) : list Z := map Z.of_nat (seq 0 (Z.to_nat n)).

(** [enumerate(l)]. *)
Definition py_enumerate {A : Type} (l : list A) : list (Z * A) :=
  combine (py_range (Z.of_nat (List.length l))) l.

(** ** The host toolkit, uninterpreted *)

(** A font handle: the two optional accessors [_get_font_height] probes
    with [hasattr], and the size of the bitmap [bitmap_label.Label]
    renders for a text. *)
Record Font : Type := {
  get_bounding_box : option (Z * Z);
  ascent : option Z;
  label_bitmap_size : string -> Z * Z
}.

Inductive source_bitmap : Type :=
| TickBitmap (tick_stroke tick_length : Z)  (* [Bitmap(stroke, length, 3)] after [fill(2)] *)
| LabelBitmap (text : string) (width height : Z).

Definition source_width (b : source_bitmap) : Z :=
  match b with
  | TickBitmap w _ => w
  | LabelBitmap _ w _ => w
  end.

Definition source_height (b : source_bitmap) : Z :=
  match b with
  | TickBitmap _ h => h
  | LabelBitmap _ _ h => h
  end.

Inductive draw_call : Type :=
| Rotozoom (ox oy : Z) (source : source_bitmap) (px py : Z) (angle scale : R)
| DrawLine (x1 y1 x2 y2 : Z) (value : Z).

Record Bitmap : Type := {
  bitmap_width : Z;
  bitmap_height : Z;
  bitmap_calls : list draw_call   (* oldest first *)
}.

Definition new_Bitmap (width height : Z) : Bitmap :=
  {| bitmap_width := width; bitmap_height := height; bitmap_calls := [] |}.

Definition apply_call (b : Bitmap) (c : draw_call) : Bitmap :=
  {| bitmap_width := bitmap_width b;
     bitmap_height := bitmap_height b;
     bitmap_calls := bitmap_calls b ++ [c] |}.

Record Palette : Type := {
  palette_colors : list Z;
  palette_transparent : list Z
}.

Definition new_Palette (n : nat) : Palette :=
  {| palette_colors := repeat 0 n; palette_transparent := [] |}.

Fixpoint list_set {A : Type} (l : list A) (i : nat) (a : A) : list A :=
  match l, i with
  | [], _ => []
  | _ :: t, O => a :: t
  | h :: t, S j => h :: list_set t j a
  end.

Definition palette_set (p : Palette) (i : nat) (c : Z) : Palette :=
  {| palette_colors := list_set (palette_colors p) i c;
     palette_transparent := palette_transparent p |}.

Definition make_transparent (p : Palette) (i : Z) : Palette :=
  {| palette_colors := palette_colors p;
     palette_transparent := i :: palette_transparent p |}.

(** [vectorio.Polygon]. *)
Record Polygon : Type := {
  points : list (Z * Z);
  pixel_shader : Palette;
  polygon_x : Z;
  polygon_y : Z
}.

(** The members of the [displayio.Group] the widget is; both are
    references to attributes of the widget. *)
Inductive Layer : Type :=
| dial_tilegrid   (* [TileGrid(self.dial_bitmap, pixel_shader=self.dial_palette)] *)
| needle_layer.   (* [self._needle] *)

(** ** The widget *)

(** [major_tick_labels] may be a tuple (the default) or a list; the
    comparison [== []] of [_get_font_height] tells them apart. *)
Inductive py_seq : Type :=
| PyTuple (items : list string)
| PyList (items : list string).

Definition seq_items (s : py_seq) : list string :=
  match s with PyTuple l => l | PyList l => l end.

(** [s == []]. *)
Definition eq_empty_list (s : py_seq) : bool :=
  match s with
  | PyList [] => true
  | _ => false
  end.

(** The keyword arguments of [Dial.__init__]. *)
Record DialArgs : Type := {
  x : Z;
  y : Z;
  width : Z;
  height : Z;
  padding : Z;
  needle_width : Z;
  needle_pad : Z;
  needle_full : bool;
  needle_color : Z;
  limit_rotation : bool;
  value : option Q;
  min_value : Q;
  max_value : Q;
  tick_color : Z;
  major_ticks : Z;
  major_tick_stroke : Z;
  major_tick_length : Z;
  major_tick_labels : py_seq;
  minor_ticks : Z;
  minor_tick_stroke : Z;
  minor_tick_length : Z;
  tick_label_font : option Font;
  tick_label_color : Z;
  rotate_tick_labels : bool;
  tick_label_scale : Q;
  background_color : option Z
}.

(** The widget state.  The attributes [__init__] copies unchanged from
    its keyword arguments ([_min_value], [_max_value], [_needle_pad],
    [_limit_rotation], [_rotate_tick_labels], ...) are read through
    [args]; the others are fields of their own. *)
Record Dial : Type := {
  args :> DialArgs;
  _value : Q;
  _dial_half : Z;
  _tick_label_font : Font;
  _font_height : Z;
  _width : Z;
  _height : Z;
  _dial_center : Z * Z;
  _dial_radius : Z;
  dial_bitmap : Bitmap;
  dial_palette : Palette;
  group : list Layer;
  _needle : Polygon;
  _needle_width : Z
}.

Definition with_value (self : Dial) (v : Q) : Dial :=
  {| args := args self; _value := v; _dial_half := _dial_half self;
     _tick_label_font := _tick_label_font self; _font_height := _font_height self;
     _width := _width self; _height := _height self;
     _dial_center := _dial_center self; _dial_radius := _dial_radius self;
     dial_bitmap := dial_bitmap self; dial_palette := dial_palette self;
     group := group self; _needle := _needle self;
     _needle_width := _needle_width self |}.

Definition with_dial_bitmap (self : Dial) (b : Bitmap) : Dial :=
  {| args := args self; _value := _value self; _dial_half := _dial_half self;
     _tick_label_font := _tick_label_font self; _font_height := _font_height self;
     _width := _width self; _height := _height self;
     _dial_center := _dial_center self; _dial_radius := _dial_radius self;
     dial_bitmap := b; dial_palette := dial_palette self;
     group := group self; _needle := _needle self;
     _needle_width := _needle_width self |}.

Definition with_dial_palette (self : Dial) (p : Palette) : Dial :=
  {| args := args self; _value := _value self; _dial_half := _dial_half self;
     _tick_label_font := _tick_label_font self; _font_height := _font_height self;
     _width := _width self; _height := _height self;
     _dial_center := _dial_center self; _dial_radius := _dial_radius self;
     dial_bitmap := dial_bitmap self; dial_palette := p;
     group := group self; _needle := _needle self;
     _needle_width := _needle_width self |}.

(** [self.append(layer)]. *)
Definition append (self : Dial) (l : Layer) : Dial :=
  {| args := args self; _value := _value self; _dial_half := _dial_half self;
     _tick_label_font := _tick_label_font self; _font_height := _font_height self;
     _width := _width self; _height := _height self;
     _dial_center := _dial_center self; _dial_radius := _dial_radius self;
     dial_bitmap := dial_bitmap self; dial_palette := dial_palette self;
     group := group self ++ [l]; _needle := _needle self;
     _needle_width := _needle_width self |}.

Definition with_needle (self : Dial) (n : Polygon) (w : Z) : Dial :=
  {| args := args self; _value := _value self; _dial_half := _dial_half self;
     _tick_label_font := _tick_label_font self; _font_height := _font_height self;
     _width := _width self; _height := _height self;
     _dial_center := _dial_center self; _dial_radius := _dial_radius self;
     dial_bitmap := dial_bitmap self; dial_palette := dial_palette self;
     group := group self; _needle := n;
     _needle_width := w |}.

(** [self._needle.points = pts]: the polygon keeps its palette and
    position and receives a new point list. *)
Definition set_points (n : Polygon) (pts : list (Z * Z)) : Polygon :=
  {| points := pts; pixel_shader := pixel_shader n;
     polygon_x := polygon_x n; polygon_y := polygon_y n |}.

(** [Dial._get_font_height]; [labels] is the attribute
    [_major_tick_labels] it reads.  When the font has neither accessor
    no branch assigns [font_height] and the [return] reads an unbound
    local. *)
Definition _get_font_height (labels : py_seq) (font : option Font) (scale : Q)
  : result Z :=
  match eq_empty_list labels, font with
  | true, _ => Ok 0
  | false, None => Ok 0
  | false, Some f =>
      match get_bounding_box f with
      | Some bounding_box => Ok (PyQ.int (scale * inject_Z (snd bounding_box))%Q)
      | None =>
          match ascent f with
          | Some a => Ok (PyQ.int (scale * inject_Z a + inject_Z a)%Q)
          | None => Raise (UnboundLocalError "font_height")
          end
      end
  end.

(** [Dial._create_needle]. *)
Definition _create_needle (self : Dial) : Dial :=
  let _needle_palette := palette_set (new_Palette 1) 0 (needle_color self) in
  with_needle self
    {| points := [(100, 100); (100, 50); (50, 50); (50, 100)];
       pixel_shader := _needle_palette;
       polygon_x := 0;
       polygon_y := 0 |}
    (needle_width self).

(** The local [angle_offset] of [_draw_position]. *)
Definition angle_offset (position : Q) : R :=
  ((2 * PI / 360) * (-180 + 360 * Q2R position))%R.

(** The four vertices [_draw_position] assigns to the needle. *)
Definition needle_vertices (self : Dial) (position : Q) : list (Z * Z) :=
  let angle_offset := angle_offset position in
  let c_x := IZR (fst (_dial_center self)) in
  let c_y := IZR (snd (_dial_center self)) in
  let reach := IZR (_dial_radius self - needle_pad self) in
  let half := IZR (_dial_half self) in
  let d_x := (IZR (_needle_width self) / 2 * cos angle_offset)%R in
  let d_y := (IZR (_needle_width self) / 2 * sin angle_offset)%R in
  let x_0 := PyR.round (c_x - reach * sin angle_offset * half - d_x)%R in
  let y_0 := PyR.round (c_y + reach * cos angle_offset * half - d_y)%R in
  let x_1 := PyR.round (c_x - reach * sin angle_offset * half + d_x)%R in
  let y_1 := PyR.round (c_y + reach * cos angle_offset * half + d_y)%R in
  let x_2 := PyR.round (c_x + reach * sin angle_offset + d_x)%R in
  let y_2 := PyR.round (c_y - reach * cos angle_offset + d_y)%R in
  let x_3 := PyR.round (c_x + reach * sin angle_offset - d_x)%R in
  let y_3 := PyR.round (c_y - reach * cos angle_offset - d_y)%R in
  [(x_0, y_0); (x_1, y_1); (x_2, y_2); (x_3, y_3)].

(** [Dial._draw_position]. *)
Definition _draw_position (self : Dial) (position : Q) : Dial :=
  with_needle self
    (set_points (_needle self) (needle_vertices self position))
    (_needle_width self).

(** The value [_update_needle] converts to a position: when
    [_limit_rotation] is set the parameter is replaced by the stored
    [_value] constrained to the range. *)
Definition effective_value (self : Dial) (value : Q) : Q :=
  if limit_rotation self then
    PyQ.max (PyQ.min (_value self) (max_value self)) (min_value self)
  else value.

(** [Dial._update_needle]. *)
Definition _update_needle (self : Dial) (value : Q) : result Dial :=
  let value := effective_value self value in
  let span := (max_value self - min_value self)%Q in
  if Qeq_bool span 0 then Raise ZeroDivisionError
  else Ok (_draw_position self (value / span)%Q).

(** The getter of the property [value]. *)
Definition value_getter (self : Dial) : Q := _value self.

(** The setter of the property [value].  When [_update_needle] raises,
    the result is the exception alone: the source has by then stored
    [new_value] in [_value], a state this result does not keep. *)
Definition value_setter (self : Dial) (new_value : Q) : result Dial :=
  if negb (Qeq_bool new_value (_value self)) then
    let self := with_value self new_value in
    _update_needle self (_value self)
  else Ok self.

(** A sequence of assignments [dial.value = v], in order. *)
Fixpoint assign_all (self : Dial) (vs : list Q) : result Dial :=
  match vs with
  | [] => Ok self
  | v :: rest => self' <- value_setter self v ;; assign_all self' rest
  end.

(** [bitmaptools.rotozoom(self.dial_bitmap, ...)] and
    [bitmaptools.draw_line(self.dial_bitmap, ...)]. *)
Definition draw_on_dial (self : Dial) (c : draw_call) : Dial :=
  with_dial_bitmap self (apply_call (dial_bitmap self) c).

(** The local [this_angle] of [draw_ticks], in radians. *)
Definition tick_angle (tick_count i : Z) : R :=
  PyR.round_ndigits
    ((-180 + IZR (i * 360) / IZR (tick_count - 1)) * (2 * PI / 360))%R 4.

Definition draw_tick (tick_count tick_stroke tick_length : Z)
  (self : Dial) (i : Z) : Dial :=
  let tick_bitmap := TickBitmap tick_stroke tick_length in
  let this_angle := tick_angle tick_count i in
  let target_position_x :=
    (IZR (fst (_dial_center self)) + IZR (_dial_radius self) * sin this_angle)%R in
  let target_position_y :=
    (IZR (snd (_dial_center self)) - IZR (_dial_radius self) * cos this_angle)%R in
  draw_on_dial self
    (Rotozoom (PyR.round target_position_x) (PyR.round target_position_y)
       tick_bitmap
       (PyQ.round (inject_Z (source_width tick_bitmap) / 2)%Q) 0
       this_angle 1%R).

(** [Dial.draw_ticks]. *)
Definition draw_ticks (self : Dial) (tick_count tick_stroke tick_length : Z) : Dial :=
  if tick_count <=? 1 then self
  else fold_left (draw_tick tick_count tick_stroke tick_length)
         (py_range tick_count) self.

(** The local [this_angle] of [draw_labels], in radians. *)
Definition label_angle (label_count i : Z) : R :=
  ((2 * PI / 360) * (-180 + IZR (i * 360) / IZR (label_count - 1)))%R.

(** The [rotozoom] call [draw_labels] makes for label [i]. *)
Definition label_call (self : Dial) (label_count i : Z) (this_label_text : string)
  : draw_call :=
  let size := label_bitmap_size (_tick_label_font self) this_label_text in
  let temp_label_bitmap := LabelBitmap this_label_text (fst size) (snd size) in
  let this_angle := label_angle label_count i in
  let target_position_x :=
    (IZR (fst (_dial_center self))
     + IZR (_dial_radius self + _font_height self / 2) * sin this_angle)%R in
  let target_position_y :=
    (IZR (snd (_dial_center self))
     - IZR (_dial_radius self + _font_height self / 2) * cos this_angle)%R in
  Rotozoom (PyR.round target_position_x) (PyR.round target_position_y)
    temp_label_bitmap
    (PyQ.round (inject_Z (source_width temp_label_bitmap / 2)))
    (PyQ.round (inject_Z (source_height temp_label_bitmap / 2)))
    this_angle
    (Q2R (tick_label_scale self)).

Definition draw_label (label_count : Z) (self : Dial) (entry : Z * string)
  : result Dial :=
  if label_count - 1 =? 0 then Raise ZeroDivisionError
  else Ok (draw_on_dial self (label_call self label_count (fst entry) (snd entry))).

Fixpoint for_each {A S : Type} (body : S -> A -> result S) (l : list A) (s : S)
  : result S :=
  match l with
  | [] => Ok s
  | a :: rest => s' <- body s a ;; for_each body rest s'
  end.

(** [Dial.draw_labels]. *)
Definition draw_labels (self : Dial) : result Dial :=
  let labels := seq_items (major_tick_labels self) in
  let label_count := Z.of_nat (List.length labels) in
  for_each (draw_label label_count) (py_enumerate labels) self.

(** The outline: the 361 points of [_initialize_dial] and the line
    segments between consecutive ones. *)
Definition outline_points (self : Dial) : list (Z * Z) :=
  map (fun i =>
         (fst (_dial_center self)
          + PyR.int (IZR (_dial_radius self) * cos (IZR i * PI / 180))%R,
          snd (_dial_center self)
          + PyR.int (IZR (_dial_radius self) * sin (IZR i * PI / 180))%R))
      (py_range 361).

Fixpoint draw_outline (self : Dial) (pts : list (Z * Z)) : Dial :=
  match pts with
  | p :: (q :: _) as rest =>
      draw_outline (draw_on_dial self (DrawLine (fst p) (snd p) (fst q) (snd q) 2)) rest
  | _ => self
  end.

(** The palette [_initialize_dial] builds. *)
Definition make_dial_palette (self : Dial) : Palette :=
  let dial_palette := new_Palette 4 in
  let dial_palette :=
    match background_color self with
    | None => palette_set (make_transparent dial_palette 0) 0 0
    | Some c => palette_set dial_palette 0 c
    end in
  let dial_palette := palette_set dial_palette 1 (tick_label_color self) in
  palette_set dial_palette 2 (tick_color self).

(** [Dial._initialize_dial].  [a], [v], [half] and [font] are the
    attributes [__init__] has assigned before the call.  The palette,
    the group and the needle do not exist until the statements that
    create them; nothing reads them earlier.  The attribute
    [_bounding_box], which nothing reads, is left out. *)
Definition _initialize_dial (a : DialArgs) (v : Q) (half : Z) (font : Font)
  (width height : Z) : result Dial :=
  font_height <- _get_font_height (major_tick_labels a) (Some font) (tick_label_scale a) ;;
  d <- _adjust_dimensions (padding a) width height ;;
  let self :=
    {| args := a; _value := v; _dial_half := half; _tick_label_font := font;
       _font_height := font_height;
       _width := dim_width d; _height := dim_height d;
       _dial_center := dim_center d; _dial_radius := dim_radius d;
       dial_bitmap := new_Bitmap (dim_width d) (dim_height d);
       dial_palette := new_Palette 0;
       group := [];
       _needle := {| points := []; pixel_shader := new_Palette 0;
                     polygon_x := 0; polygon_y := 0 |};
       _needle_width := 0 |} in
  let self := draw_ticks self (major_ticks a) (major_tick_stroke a) (major_tick_length a) in
  let self :=
    draw_ticks self (minor_ticks a * (major_ticks a - 1) + 1)
      (minor_tick_stroke a) (minor_tick_length a) in
  self <- draw_labels self ;;
  let self := with_dial_palette self (make_dial_palette self) in
  let self := append self dial_tilegrid in
  let self := draw_outline self (outline_points self) in
  let self := _create_needle self in
  let self := append self needle_layer in
  _update_needle self (_value self).

(** [Dial.__init__]; [terminalio_FONT] is the imported default font. *)
Definition Dial__init__ (terminalio_FONT : Font) (a : DialArgs) : result Dial :=
  let v := match value a with None => min_value a | Some v => v end in
  let half := if needle_full a then 1 else 0 in
  let font :=
    match tick_label_font a with None => terminalio_FONT | Some f => f end in
  _initialize_dial a v half font (width a) (height a).

(** The default of [major_tick_labels]. *)
Definition default_labels : py_seq := PyTuple ["0"; "25"; "50"; "75"; "100"]%string.

(** Keyword arguments: the ones named are given, the others take the
    defaults of the signature of [__init__]. *)
Definition dial_args (width height padding : Z) (limit_rotation : bool)
  (value : option Q) (min_value max_value : Q)
  (major_tick_labels : py_seq) (tick_label_font : option Font)
  (rotate_tick_labels : bool) : DialArgs :=
  {| x := 100; y := 100; width := width; height := height; padding := padding;
     needle_width := 3; needle_pad := 10; needle_full := false;
     needle_color := 0x880000; limit_rotation := limit_rotation; value := value;
     min_value := min_value; max_value := max_value; tick_color := 0xFFFFFF;
     major_ticks := 5; major_tick_stroke := 4; major_tick_length := 10;
     major_tick_labels := major_tick_labels;
     minor_ticks := 5; minor_tick_stroke := 1; minor_tick_length := 5;
     tick_label_font := tick_label_font; tick_label_color := 0xFFFFFF;
     rotate_tick_labels := rotate_tick_labels; tick_label_scale := 1;
     background_color := None |}.

(** [Dial()]: every argument at its default. *)
Definition default_args : DialArgs :=
  dial_args 100 100 5 true None 0 100 default_labels None true.

(** A font shaped like [terminalio.FONT]: a bounding-box accessor, a
    6 by 14 glyph cell, no [ascent]. *)
Definition cell_font : Font :=
  {| get_bounding_box := Some (6, 14);
     ascent := None;
     label_bitmap_size := fun text => (6 * Z.of_nat (String.length text), 14) |}.

(** A font with neither accessor. *)
Definition bare_font : Font :=
  {| get_bounding_box := None;
     ascent := None;
     label_bitmap_size := fun text => (6 * Z.of_nat (String.length text), 14) |}.

(** ** Vocabulary of the properties *)

Definition invalid_dimensions (p w h : Z) : Prop :=
  w - 2 * p < 0 \/ h - 2 * p < 0.

(** The attributes no drawing step and no needle update assigns. *)
Definition geometry (s : Dial) :=
  (args s, _value s, _dial_half s, _tick_label_font s, _font_height s,
   _width s, _height s, _dial_center s, _dial_radius s).

(** Everything but the stored value and the needle's point list. *)
Definition static_part (s : Dial) :=
  (args s, _dial_half s, _tick_label_font s, _font_height s,
   _width s, _height s, _dial_center s, _dial_radius s,
   dial_bitmap s, dial_palette s, group s,
   pixel_shader (_needle s), polygon_x (_needle s), polygon_y (_needle s),
   _needle_width s).

(** The attributes [__init__] computes from its arguments. *)
Definition initial_value (a : DialArgs) : Q :=
  match value a with None => min_value a | Some v => v end.

Definition chosen_font (terminalio_FONT : Font) (a : DialArgs) : Font :=
  match tick_label_font a with None => terminalio_FONT | Some f => f end.

(** The needle shows the stored value. *)
Definition needle_in_sync (s : Dial) : Prop :=
  points (_needle s) =
  needle_vertices s
    (effective_value s (_value s) / (max_value s - min_value s)).

(** What holds of every widget the constructor returned and of every
    state assignments lead it to. *)
Definition well_formed (s : Dial) : Prop :=
  ~ (max_value s - min_value s == 0)%Q /\ needle_in_sync s.

(** The position the needle takes when [v] is assigned. *)
Definition position_for (s : Dial) (v : Q) : Q :=
  (effective_value (with_value s v) v / (max_value s - min_value s))%Q.

(** The widget after more drawing calls on its face bitmap. *)
Definition extend_bitmap (s : Dial) (calls : list draw_call) : Dial :=
  with_dial_bitmap s
    {| bitmap_width := bitmap_width (dial_bitmap s);
       bitmap_height := bitmap_height (dial_bitmap s);
       bitmap_calls := bitmap_calls (dial_bitmap s) ++ calls |}.

(** The [rotozoom] call [draw_ticks] makes for tick [i]. *)
Definition tick_call (center : Z * Z) (radius tick_count tick_stroke tick_length i : Z)
  : draw_call :=
  let this_angle := tick_angle tick_count i in
  Rotozoom
    (PyR.round (IZR (fst center) + IZR radius * sin this_angle)%R)
    (PyR.round (IZR (snd center) - IZR radius * cos this_angle)%R)
    (TickBitmap tick_stroke tick_length)
    (PyQ.round (inject_Z tick_stroke / 2)%Q) 0
    this_angle 1%R.

(** All the calls of one [draw_ticks]. *)
Definition tick_calls (center : Z * Z) (radius tick_count tick_stroke tick_length : Z)
  : list draw_call :=
  if tick_count <=? 1 then []
  else map (tick_call center radius tick_count tick_stroke tick_length)
         (py_range tick_count).

(** All the calls of [draw_labels]. *)
Definition label_calls (s : Dial) : list draw_call :=
  let labels := seq_items (major_tick_labels s) in
  map (fun entry =>
         label_call s (Z.of_nat (List.length labels)) (fst entry) (snd entry))
      (py_enumerate labels).

(** The line segments between consecutive points. *)
Definition segments (pts : list (Z * Z)) : list draw_call :=
  map (fun pq =>
         DrawLine (fst (fst pq)) (snd (fst pq)) (fst (snd pq)) (snd (snd pq)) 2)
      (combine pts (tl pts)).

(** A drawing call is anchored within [r] of the point [c] in each
    coordinate: the target point of a rotozoom, both ends of a line. *)
Definition anchor_within (c : Z * Z) (r : Z) (call : draw_call) : Prop :=
  match call with
  | Rotozoom ox oy _ _ _ _ _ =>
      fst c - r <= ox <= fst c + r /\ snd c - r <= oy <= snd c + r
  | DrawLine x1 y1 x2 y2 _ =>
      (fst c - r <= x1 <= fst c + r /\ snd c - r <= y1 <= snd c + r)
      /\ (fst c - r <= x2 <= fst c + r /\ snd c - r <= y2 <= snd c + r)
  end.

(** How many ticks one [draw_ticks] draws. *)
Definition ticks_drawn (tick_count : Z) : nat :=
  if tick_count <=? 1 then 0%nat else Z.to_nat tick_count.

(** * Properties *)

(** ** Rounding *)

Example round_half_to_even :
  PyQ.round (1 # 2) = 0 /\ PyQ.round (3 # 2) = 2 /\ PyQ.round (5 # 2) = 2
  /\ PyQ.round (-1 # 2) = 0 /\ PyQ.round (-3 # 2) = -2
  /\ PyQ.round (63 # 1) = 63 /\ PyQ.round (7 # 4) = 2 /\ PyQ.round (5 # 4) = 1.
Proof. vm_compute. repeat split. Qed.

Example int_truncates :
  PyQ.int (7 # 2) = 3 /\ PyQ.int (-7 # 2) = -3 /\ PyQ.int 14 = 14.
Proof. vm_compute. repeat split. Qed.

Example constrain_examples :
  PyQ.max (PyQ.min 150 100) 0 = 100%Q
  /\ PyQ.max (PyQ.min (-10) 100) 0 = 0%Q
  /\ PyQ.max (PyQ.min 42 100) 0 = 42%Q.
Proof. vm_compute. repeat split. Qed.

Example adjust_example_script :
  _adjust_dimensions 12 150 150 =
  Ok {| dim_width := 150; dim_height := 150; dim_center := (75, 75); dim_radius := 63 |}.
Proof. vm_compute. reflexivity. Qed.

Example adjust_odd_width :
  _adjust_dimensions 5 103 100 =
  Ok {| dim_width := 103; dim_height := 103; dim_center := (51, 51); dim_radius := 46 |}.
Proof. vm_compute. reflexivity. Qed.

Example adjust_too_small :
  _adjust_dimensions 10 10 100 = Raise (ValueError zero_box_msg).
Proof. vm_compute. reflexivity. Qed.

Example font_height_examples :
  _get_font_height default_labels (Some cell_font) 1 = Ok 14
  /\ _get_font_height (PyList []) (Some bare_font) 1 = Ok 0
  /\ _get_font_height (PyTuple []) (Some bare_font) 1
     = Raise (UnboundLocalError "font_height")
  /\ _get_font_height default_labels
       (Some {| get_bounding_box := None; ascent := Some 10;
                label_bitmap_size := fun _ => (6, 14) |}) (3 # 2) = Ok 25.
Proof. vm_compute. repeat split. Qed.

Lemma round_comp (a b : Q) : (a == b)%Q -> PyQ.round a = PyQ.round b.
Proof.
  intros E. unfold PyQ.round.
  rewrite (Qfloor_comp _ _ E).
  assert (C : ((a - inject_Z (Qfloor b)) ?= (1 # 2))%Q
              = ((b - inject_Z (Qfloor b)) ?= (1 # 2))%Q).
  { apply Qcompare_comp; [rewrite E; reflexivity | reflexivity]. }
  rewrite C. reflexivity.
Qed.

Lemma round_inject_Z (n : Z) : PyQ.round (inject_Z n) = n.
Proof.
  unfold PyQ.round. rewrite Qfloor_Z.
  assert (L : (inject_Z n - inject_Z n < 1 # 2)%Q).
  { setoid_replace (inject_Z n - inject_Z n)%Q with 0%Q by ring. reflexivity. }
  rewrite (proj1 (Qlt_alt _ _) L). reflexivity.
Qed.

Lemma floor_le_round (a : Q) : Qfloor a <= PyQ.round a.
Proof.
  unfold PyQ.round.
  destruct (Qcompare _ _); [destruct (Z.even _) | | ]; lia.
Qed.

Lemma round_le_floor_succ (a : Q) : PyQ.round a <= Qfloor a + 1.
Proof.
  unfold PyQ.round.
  destruct (Qcompare _ _); [destruct (Z.even _) | | ]; lia.
Qed.

(** [round(n / 2)] for an integer [n], in integer arithmetic. *)
Lemma round_half (n : Z) :
  PyQ.round (inject_Z n / 2) =
  if Z.even n then n / 2
  else if Z.even (n / 2) then n / 2 else n / 2 + 1.
Proof.
  assert (F : Qfloor (inject_Z n / 2) = n / 2).
  { unfold Qfloor, Qdiv, Qmult, Qinv, inject_Z. simpl.
    rewrite Z.mul_1_r. reflexivity. }
  unfold PyQ.round. rewrite F.
  pose proof (Z.div_mod n 2 ltac:(lia)) as D.
  pose proof (Z.mod_pos_bound n 2 ltac:(lia)) as B.
  destruct (Z.even n) eqn:Ev.
  - assert (M : n mod 2 = 0).
    { rewrite Zmod_even, Ev. reflexivity. }
    assert (L : (inject_Z n / 2 - inject_Z (n / 2) < 1 # 2)%Q).
    { unfold Qlt, Qminus, Qplus, Qopp, Qdiv, Qmult, Qinv, inject_Z. simpl. lia. }
    rewrite (proj1 (Qlt_alt _ _) L). reflexivity.
  - assert (M : n mod 2 = 1).
    { rewrite Zmod_even, Ev. reflexivity. }
    assert (E : (inject_Z n / 2 - inject_Z (n / 2) == 1 # 2)%Q).
    { unfold Qeq, Qminus, Qplus, Qopp, Qdiv, Qmult, Qinv, inject_Z. simpl. lia. }
    rewrite (proj1 (Qeq_alt _ _) E). reflexivity.
Qed.

Lemma round_half_nonneg (n : Z) : 0 <= n -> 0 <= PyQ.round (inject_Z n / 2).
Proof.
  intros H. rewrite round_half.
  pose proof (Z.div_pos n 2 H ltac:(lia)).
  destruct (Z.even n); [ | destruct (Z.even (n / 2))]; lia.
Qed.

Lemma round_half_pos (n : Z) : 2 <= n -> 0 < PyQ.round (inject_Z n / 2).
Proof.
  intros H. rewrite round_half.
  assert (1 <= n / 2) by (apply Z.div_le_lower_bound; lia).
  destruct (Z.even n); [ | destruct (Z.even (n / 2))]; lia.
Qed.

(** ** Dimensions *)

Lemma adjust_guard (p w h : Z) :
  ((w - 2 * p <? 0) || (h - 2 * p <? 0) = true) <-> invalid_dimensions p w h.
Proof.
  unfold invalid_dimensions.
  rewrite orb_true_iff, !Z.ltb_lt. reflexivity.
Qed.

Lemma adjust_invalid (p w h : Z) :
  invalid_dimensions p w h ->
  _adjust_dimensions p w h = Raise (ValueError zero_box_msg).
Proof.
  intros H. apply adjust_guard in H.
  unfold _adjust_dimensions. rewrite H. reflexivity.
Qed.

Lemma adjust_valid (p w h : Z) :
  ~ invalid_dimensions p w h ->
  _adjust_dimensions p w h =
  Ok {| dim_width := w;
        dim_height := w;
        dim_center := (PyQ.round (inject_Z (w - 2 * p) / 2) + p,
                       PyQ.round (inject_Z (w - 2 * p) / 2) + p);
        dim_radius := PyQ.round (inject_Z (w - 2 * p) / 2) |}.
Proof.
  intros H.
  assert (G : (w - 2 * p <? 0) || (h - 2 * p <? 0) = false).
  { destruct ((w - 2 * p <? 0) || (h - 2 * p <? 0)) eqn:E; [ | reflexivity].
    apply adjust_guard in E. contradiction. }
  unfold _adjust_dimensions. rewrite G.
  set (n := w - 2 * p).
  assert (R : PyQ.round (inject_Z n / (2 * (1 - 0))) = PyQ.round (inject_Z n / 2)).
  { apply round_comp. field. }
  rewrite R.
  set (r := PyQ.round (inject_Z n / 2)).
  assert (C : PyQ.round ((1 # 2) * inject_Z r * 2) = r).
  { rewrite <- (round_inject_Z r) at 2. apply round_comp. field. }
  rewrite C.
  assert (Hh : PyQ.ceil (inject_Z n / ((1 - 0) / (1 - 0))) = n).
  { unfold PyQ.ceil. rewrite <- (Qceiling_Z n) at 2.
    apply Qceiling_comp. field. }
  rewrite Hh.
  replace (n + 2 * p) with w by (unfold n; lia).
  reflexivity.
Qed.

Lemma adjust_raises_only_ValueError (p w h : Z) (e : py_exception) :
  _adjust_dimensions p w h = Raise e -> e = ValueError zero_box_msg.
Proof.
  unfold _adjust_dimensions.
  destruct ((w - 2 * p <? 0) || (h - 2 * p <? 0)); intros H; inversion H.
  reflexivity.
Qed.

Lemma invalid_dimensions_dec (p w h : Z) :
  {invalid_dimensions p w h} + {~ invalid_dimensions p w h}.
Proof.
  unfold invalid_dimensions.
  destruct (Z_lt_dec (w - 2 * p) 0); [left; lia | ].
  destruct (Z_lt_dec (h - 2 * p) 0); [left; lia | right; lia].
Qed.

(** ** What each step of the construction leaves alone *)

Lemma geometry_draw_tick n st len s i :
  geometry (draw_tick n st len s i) = geometry s.
Proof. reflexivity. Qed.

Lemma geometry_fold_ticks n st len l : forall s,
  geometry (fold_left (draw_tick n st len) l s) = geometry s.
Proof.
  induction l as [ | i l IH]; intros s; simpl; [reflexivity | ].
  rewrite IH. apply geometry_draw_tick.
Qed.

Lemma geometry_draw_ticks s n st len :
  geometry (draw_ticks s n st len) = geometry s.
Proof.
  unfold draw_ticks. destruct (n <=? 1); [reflexivity | ].
  apply geometry_fold_ticks.
Qed.

Lemma geometry_for_each_label n l : forall s s',
  for_each (draw_label n) l s = Ok s' -> geometry s' = geometry s.
Proof.
  induction l as [ | e l IH]; intros s s' H; simpl in H.
  - inversion H. reflexivity.
  - unfold draw_label at 1 in H.
    destruct (n - 1 =? 0); simpl in H; [discriminate | ].
    apply IH in H. rewrite H. reflexivity.
Qed.

Lemma geometry_draw_labels s s' :
  draw_labels s = Ok s' -> geometry s' = geometry s.
Proof. apply geometry_for_each_label. Qed.

Lemma geometry_draw_outline pts : forall s,
  geometry (draw_outline s pts) = geometry s.
Proof.
  induction pts as [ | p pts IH]; intros s; [reflexivity | ].
  destruct pts as [ | q pts]; [reflexivity | ].
  change (draw_outline s (p :: q :: pts))
    with (draw_outline
            (draw_on_dial s (DrawLine (fst p) (snd p) (fst q) (snd q) 2))
            (q :: pts)).
  rewrite IH. reflexivity.
Qed.

Lemma update_needle_cases (s : Dial) (v : Q) :
  (Qeq_bool (max_value s - min_value s) 0 = true
   /\ _update_needle s v = Raise ZeroDivisionError)
  \/ (Qeq_bool (max_value s - min_value s) 0 = false
      /\ _update_needle s v =
         Ok (_draw_position s
               (effective_value s v / (max_value s - min_value s)))).
Proof.
  unfold _update_needle.
  destruct (Qeq_bool (max_value s - min_value s) 0); [left | right]; split; reflexivity.
Qed.

Lemma update_needle_total (s : Dial) (v : Q) :
  ~ (max_value s - min_value s == 0)%Q ->
  _update_needle s v =
  Ok (_draw_position s (effective_value s v / (max_value s - min_value s))).
Proof.
  intros N. destruct (update_needle_cases s v) as [[E _] | [_ H]]; [ | exact H].
  apply Qeq_bool_iff in E. contradiction.
Qed.

Lemma update_needle_ok_span (s s' : Dial) (v : Q) :
  _update_needle s v = Ok s' -> ~ (max_value s - min_value s == 0)%Q.
Proof.
  intros H N. apply Qeq_bool_iff in N.
  unfold _update_needle in H. rewrite N in H. discriminate.
Qed.

Lemma static_update_needle (s s' : Dial) (v : Q) :
  _update_needle s v = Ok s' ->
  static_part s' = static_part s /\ _value s' = _value s.
Proof.
  intros H. destruct (update_needle_cases s v) as [[_ E] | [_ E]];
    rewrite E in H; inversion H.
  split; reflexivity.
Qed.

Lemma for_each_label_raises n l : forall s e,
  for_each (draw_label n) l s = Raise e -> e = ZeroDivisionError.
Proof.
  induction l as [ | x l IH]; intros s e H; simpl in H; [discriminate | ].
  unfold draw_label at 1 in H.
  destruct (n - 1 =? 0); simpl in H.
  - inversion H. reflexivity.
  - apply IH in H. exact H.
Qed.

Lemma for_each_label_ok n l : n - 1 <> 0 -> forall s,
  exists s', for_each (draw_label n) l s = Ok s'.
Proof.
  intros N. apply Z.eqb_neq in N.
  induction l as [ | x l IH]; intros s; simpl.
  - exists s. reflexivity.
  - unfold draw_label at 1. rewrite N. simpl. apply IH.
Qed.

Lemma draw_labels_ok (s : Dial) :
  List.length (seq_items (major_tick_labels s)) <> 1%nat ->
  exists s', draw_labels s = Ok s'.
Proof.
  intros N. unfold draw_labels.
  destruct (seq_items (major_tick_labels s)) as [ | t l] eqn:E.
  - exists s. reflexivity.
  - apply for_each_label_ok. simpl List.length in *. lia.
Qed.

Lemma get_font_height_raises labels font scale e :
  _get_font_height labels font scale = Raise e ->
  e = UnboundLocalError "font_height".
Proof.
  unfold _get_font_height.
  destruct (eq_empty_list labels); [discriminate | ].
  destruct font as [f | ]; [ | discriminate].
  destruct (get_bounding_box f); [discriminate | ].
  destruct (ascent f); [discriminate | ].
  intros H. inversion H. reflexivity.
Qed.

Lemma geometry_update_needle (s s' : Dial) (v : Q) :
  _update_needle s v = Ok s' -> geometry s' = geometry s.
Proof.
  intros H. destruct (update_needle_cases s v) as [[_ E] | [_ E]];
    rewrite E in H; inversion H.
  reflexivity.
Qed.

Lemma geometry_append (s : Dial) (l : Layer) : geometry (append s l) = geometry s.
Proof. reflexivity. Qed.

Lemma geometry_create_needle (s : Dial) : geometry (_create_needle s) = geometry s.
Proof. reflexivity. Qed.

Lemma geometry_with_dial_palette (s : Dial) (p : Palette) :
  geometry (with_dial_palette s p) = geometry s.
Proof. reflexivity. Qed.

(** ** The construction as a whole *)

Lemma update_needle_sync (s s' : Dial) :
  _update_needle s (_value s) = Ok s' -> needle_in_sync s'.
Proof.
  intros H. destruct (update_needle_cases s (_value s)) as [[_ E] | [_ E]];
    rewrite E in H; inversion H.
  reflexivity.
Qed.

Lemma update_needle_raises (s : Dial) (v : Q) (e : py_exception) :
  _update_needle s v = Raise e -> e = ZeroDivisionError.
Proof.
  intros H. destruct (update_needle_cases s v) as [[_ E] | [_ E]];
    rewrite E in H; inversion H.
  reflexivity.
Qed.

Lemma init_inversion (font : Font) (a : DialArgs) (self : Dial) :
  Dial__init__ font a = Ok self ->
  exists fh d,
    _get_font_height (major_tick_labels a) (Some (chosen_font font a))
      (tick_label_scale a) = Ok fh
    /\ _adjust_dimensions (padding a) (width a) (height a) = Ok d
    /\ geometry self =
       (a, initial_value a, (if needle_full a then 1 else 0),
        chosen_font font a, fh,
        dim_width d, dim_height d, dim_center d, dim_radius d)
    /\ ~ (max_value self - min_value self == 0)%Q
    /\ needle_in_sync self.
Proof.
  unfold Dial__init__, _initialize_dial.
  fold (initial_value a). fold (chosen_font font a).
  destruct (_get_font_height _ _ _) as [fh | e]; [ | discriminate].
  cbn [bind].
  destruct (_adjust_dimensions _ _ _) as [d | e]; [ | discriminate].
  cbn [bind].
  match goal with
  | |- context [draw_labels ?s] => set (s2 := s)
  end.
  destruct (draw_labels s2) as [s3 | e] eqn:L; [ | discriminate].
  cbn [bind].
  match goal with
  | |- _update_needle ?s _ = _ -> _ => set (s8 := s)
  end.
  intros U.
  exists fh, d.
  split; [reflexivity | ]. split; [reflexivity | ].
  assert (G8 : geometry s8 = geometry s3).
  { unfold s8.
    rewrite geometry_append, geometry_create_needle, geometry_draw_outline.
    rewrite geometry_append, geometry_with_dial_palette. reflexivity. }
  assert (G3 : geometry s3 = geometry s2) by (apply geometry_draw_labels; exact L).
  assert (G2 : geometry s2 =
               (a, initial_value a, (if needle_full a then 1 else 0),
                chosen_font font a, fh,
                dim_width d, dim_height d, dim_center d, dim_radius d)).
  { unfold s2. rewrite !geometry_draw_ticks. reflexivity. }
  pose proof (geometry_update_needle _ _ _ U) as GU.
  split; [congruence | ].
  assert (A : args self = args s8) by (unfold geometry in GU; congruence).
  split.
  - rewrite A. apply (update_needle_ok_span _ _ _ U).
  - apply (update_needle_sync _ _ U).
Qed.

Lemma init_raises (font : Font) (a : DialArgs) (e : py_exception) :
  Dial__init__ font a = Raise e ->
  (e = UnboundLocalError "font_height"
   /\ _get_font_height (major_tick_labels a) (Some (chosen_font font a))
        (tick_label_scale a) = Raise e)
  \/ (e = ValueError zero_box_msg
      /\ _adjust_dimensions (padding a) (width a) (height a) = Raise e)
  \/ e = ZeroDivisionError.
Proof.
  unfold Dial__init__, _initialize_dial.
  fold (initial_value a). fold (chosen_font font a).
  destruct (_get_font_height _ _ _) as [fh | e1] eqn:F.
  2:{ cbn [bind]. intros H. inversion H. subst e1. left.
      split; [ | reflexivity]. apply (get_font_height_raises _ _ _ _ F). }
  cbn [bind].
  destruct (_adjust_dimensions _ _ _) as [d | e1] eqn:D.
  2:{ cbn [bind]. intros H. inversion H. subst e1. right. left.
      split; [ | reflexivity]. apply (adjust_raises_only_ValueError _ _ _ _ D). }
  cbn [bind].
  match goal with
  | |- context [draw_labels ?s] => set (s2 := s)
  end.
  destruct (draw_labels s2) as [s3 | e1] eqn:L.
  2:{ cbn [bind]. intros H. inversion H. subst e1. right. right.
      apply (for_each_label_raises _ _ _ _ L). }
  cbn [bind].
  intros H. right. right. apply (update_needle_raises _ _ _ H).
Qed.

Lemma init_invalid_dimensions (font : Font) (a : DialArgs) :
  invalid_dimensions (padding a) (width a) (height a) ->
  exists e, Dial__init__ font a = Raise e
    /\ (succeeds (_get_font_height (major_tick_labels a)
                    (Some (chosen_font font a)) (tick_label_scale a)) = true ->
        e = ValueError zero_box_msg).
Proof.
  intros I.
  unfold Dial__init__, _initialize_dial.
  fold (initial_value a). fold (chosen_font font a).
  destruct (_get_font_height _ _ _) as [fh | e1].
  - cbn [bind]. rewrite (adjust_invalid _ _ _ I). cbn [bind].
    eexists. split; reflexivity.
  - cbn [bind]. eexists. split; [reflexivity | ]. discriminate.
Qed.

Lemma init_succeeds (font : Font) (a : DialArgs) :
  succeeds (_get_font_height (major_tick_labels a)
              (Some (chosen_font font a)) (tick_label_scale a)) = true ->
  ~ invalid_dimensions (padding a) (width a) (height a) ->
  List.length (seq_items (major_tick_labels a)) <> 1%nat ->
  ~ (max_value a - min_value a == 0)%Q ->
  exists self, Dial__init__ font a = Ok self.
Proof.
  intros F V N S.
  unfold Dial__init__, _initialize_dial.
  fold (initial_value a). fold (chosen_font font a).
  destruct (_get_font_height _ _ _) as [fh | e]; [ | discriminate].
  cbn [bind]. rewrite (adjust_valid _ _ _ V). cbn [bind].
  match goal with
  | |- context [draw_labels ?s] => set (s2 := s)
  end.
  assert (A2 : args s2 = a).
  { assert (G : geometry s2 = geometry s2) by reflexivity.
    unfold s2 in G at 2. rewrite !geometry_draw_ticks in G.
    unfold geometry in G. cbn [args] in G. congruence. }
  destruct (draw_labels_ok s2) as [s3 L].
  { rewrite A2. exact N. }
  rewrite L. cbn [bind].
  match goal with
  | |- exists self, _update_needle ?s ?v = _ => set (s8 := s)
  end.
  assert (A8 : args s8 = a).
  { assert (G : geometry s8 = geometry s2).
    { unfold s8.
      rewrite geometry_append, geometry_create_needle, geometry_draw_outline.
      rewrite geometry_append, geometry_with_dial_palette.
      apply geometry_draw_labels. exact L. }
    unfold geometry in G. congruence. }
  eexists. apply update_needle_total. rewrite A8. exact S.
Qed.

Lemma init_dimensions (font : Font) (a : DialArgs) (self : Dial) (d : Dimensions) :
  Dial__init__ font a = Ok self ->
  _adjust_dimensions (padding a) (width a) (height a) = Ok d ->
  _dial_radius self = dim_radius d
  /\ _dial_center self = dim_center d
  /\ _width self = dim_width d
  /\ _height self = dim_height d.
Proof.
  intros H D.
  destruct (init_inversion _ _ _ H) as [fh [d' [_ [D' [G _]]]]].
  rewrite D in D'. inversion D'. subst d'.
  unfold geometry in G. inversion G. repeat split; reflexivity.
Qed.

(** ** The needle *)

Lemma py_min_comp (a a' b b' : Q) :
  (a == a')%Q -> (b == b')%Q -> (PyQ.min a b == PyQ.min a' b')%Q.
Proof.
  intros Ea Eb. unfold PyQ.min.
  destruct (Qle_bool a b) eqn:L, (Qle_bool a' b') eqn:L'; try assumption.
  - apply Qle_bool_iff in L. rewrite Ea, Eb in L.
    apply Qle_bool_iff in L. congruence.
  - apply Qle_bool_iff in L'. rewrite <- Ea, <- Eb in L'.
    apply Qle_bool_iff in L'. congruence.
Qed.

Lemma py_max_comp (a a' b b' : Q) :
  (a == a')%Q -> (b == b')%Q -> (PyQ.max a b == PyQ.max a' b')%Q.
Proof.
  intros Ea Eb. unfold PyQ.max.
  destruct (Qle_bool b a) eqn:L, (Qle_bool b' a') eqn:L'; try assumption.
  - apply Qle_bool_iff in L. rewrite Ea, Eb in L.
    apply Qle_bool_iff in L. congruence.
  - apply Qle_bool_iff in L'. rewrite <- Ea, <- Eb in L'.
    apply Qle_bool_iff in L'. congruence.
Qed.

(** The constraint of [_update_needle], by cases. *)
Lemma constrain_inside (v lo hi : Q) :
  (lo <= v)%Q -> (v <= hi)%Q -> PyQ.max (PyQ.min v hi) lo = v.
Proof.
  intros L H. unfold PyQ.min, PyQ.max.
  apply Qle_bool_iff in H. rewrite H.
  apply Qle_bool_iff in L. rewrite L. reflexivity.
Qed.

Lemma constrain_above (v lo hi : Q) :
  (lo <= hi)%Q -> (hi < v)%Q -> PyQ.max (PyQ.min v hi) lo = hi.
Proof.
  intros L H. unfold PyQ.min, PyQ.max.
  destruct (Qle_bool v hi) eqn:E.
  - apply Qle_bool_iff in E. exfalso. apply (Qlt_irrefl v).
    apply (Qle_lt_trans _ hi); assumption.
  - apply Qle_bool_iff in L. rewrite L. reflexivity.
Qed.

Lemma constrain_below (v lo hi : Q) :
  (lo <= hi)%Q -> (v < lo)%Q -> PyQ.max (PyQ.min v hi) lo = lo.
Proof.
  intros L H. unfold PyQ.min, PyQ.max.
  assert (V : (v <= hi)%Q).
  { apply Qlt_le_weak. apply (Qlt_le_trans _ lo); assumption. }
  apply Qle_bool_iff in V. rewrite V.
  destruct (Qle_bool lo v) eqn:E; [ | reflexivity].
  apply Qle_bool_iff in E. exfalso. apply (Qlt_irrefl v).
  apply (Qlt_le_trans _ lo); assumption.
Qed.

Lemma effective_value_comp (s : Dial) (v v' : Q) :
  (v == v')%Q ->
  (effective_value (with_value s v) v == effective_value (with_value s v') v')%Q.
Proof.
  intros E. unfold effective_value. cbn [args with_value _value].
  destruct (limit_rotation s); [ | exact E].
  apply py_max_comp; [ | reflexivity].
  apply py_min_comp; [exact E | reflexivity].
Qed.

Lemma effective_value_stored (s : Dial) :
  effective_value (with_value s (_value s)) (_value s)
  = effective_value s (_value s).
Proof. reflexivity. Qed.

Lemma angle_offset_comp (p q : Q) : (p == q)%Q -> angle_offset p = angle_offset q.
Proof.
  intros E. unfold angle_offset. rewrite (Qeq_eqR _ _ E). reflexivity.
Qed.

Lemma needle_vertices_comp (s : Dial) (p q : Q) :
  (p == q)%Q -> needle_vertices s p = needle_vertices s q.
Proof.
  intros E. unfold needle_vertices. rewrite (angle_offset_comp _ _ E).
  reflexivity.
Qed.

Lemma needle_vertices_with_value (s : Dial) (v p : Q) :
  needle_vertices (with_value s v) p = needle_vertices s p.
Proof. reflexivity. Qed.

Lemma needle_vertices_length (s : Dial) (p : Q) :
  List.length (needle_vertices s p) = 4%nat.
Proof. reflexivity. Qed.

(** In radians the needle angle is -pi + 2 pi position. *)
Lemma angle_offset_formula (position : Q) :
  angle_offset position = (- PI + 2 * PI * Q2R position)%R.
Proof. unfold angle_offset. field. Qed.

Lemma setter_same (s : Dial) (v : Q) :
  (v == _value s)%Q -> value_setter s v = Ok s.
Proof.
  intros E. unfold value_setter.
  apply Qeq_bool_iff in E. rewrite E. reflexivity.
Qed.

Lemma setter_changed (s : Dial) (v : Q) :
  ~ (v == _value s)%Q ->
  value_setter s v = _update_needle (with_value s v) v.
Proof.
  intros N. unfold value_setter.
  destruct (Qeq_bool v (_value s)) eqn:E; [ | reflexivity].
  apply Qeq_bool_iff in E. contradiction.
Qed.

Lemma setter_spec (s : Dial) (v : Q) :
  well_formed s ->
  exists s',
    value_setter s v = Ok s'
    /\ points (_needle s') = needle_vertices s (position_for s v)
    /\ static_part s' = static_part s
    /\ (_value s' == v)%Q
    /\ well_formed s'.
Proof.
  intros [Span Sync].
  destruct (Qeq_dec v (_value s)) as [E | N].
  - exists s. split; [apply setter_same; exact E | ].
    split.
    + rewrite Sync. apply needle_vertices_comp. unfold position_for.
      rewrite <- effective_value_stored.
      rewrite (effective_value_comp s _ _ E). reflexivity.
    + split; [reflexivity | ].
      split; [symmetry; exact E | split; assumption].
  - rewrite (setter_changed _ _ N).
    assert (Span' : ~ (max_value (with_value s v) - min_value (with_value s v) == 0)%Q)
      by exact Span.
    rewrite (update_needle_total _ v Span').
    eexists. split; [reflexivity | ].
    split; [reflexivity | ].
    split; [reflexivity | ].
    split; [reflexivity | ].
    split; [exact Span | reflexivity].
Qed.

Lemma init_well_formed (font : Font) (a : DialArgs) (s : Dial) :
  Dial__init__ font a = Ok s -> well_formed s /\ args s = a.
Proof.
  intros H. destruct (init_inversion _ _ _ H) as [fh [d [_ [_ [G [Span Sync]]]]]].
  split; [split; assumption | ].
  unfold geometry in G. congruence.
Qed.

Lemma assign_all_spec (vs : list Q) : forall s,
  well_formed s ->
  exists s', assign_all s vs = Ok s'
    /\ static_part s' = static_part s
    /\ well_formed s'.
Proof.
  induction vs as [ | v vs IH]; intros s W; simpl.
  - exists s. repeat split; try reflexivity; apply W.
  - destruct (setter_spec s v W) as [s1 [E [_ [St [_ W1]]]]].
    rewrite E. cbn [bind].
    destruct (IH s1 W1) as [s' [E' [St' W']]].
    exists s'. split; [exact E' | ]. split; [congruence | exact W'].
Qed.

(** The default widget, with a font that has a bounding box. *)
Lemma default_dial_exists :
  exists s, Dial__init__ cell_font default_args = Ok s.
Proof.
  apply init_succeeds.
  - reflexivity.
  - unfold invalid_dimensions. cbn. lia.
  - cbn. lia.
  - cbn. intros H. discriminate H.
Qed.

Lemma Q2R_const_0 (q : Q) : (q == 0)%Q -> Q2R q = 0%R.
Proof. intros E. rewrite (Qeq_eqR _ _ E). unfold Q2R. simpl. lra. Qed.

Lemma Q2R_const_50 (q : Q) : (q == 50)%Q -> Q2R q = 50%R.
Proof. intros E. rewrite (Qeq_eqR _ _ E). unfold Q2R. simpl. lra. Qed.

Lemma Q2R_const_100 (q : Q) : (q == 100)%Q -> Q2R q = 100%R.
Proof. intros E. rewrite (Qeq_eqR _ _ E). unfold Q2R. simpl. lra. Qed.

Lemma Q2R_const_150 (q : Q) : (q == 150)%Q -> Q2R q = 150%R.
Proof. intros E. rewrite (Qeq_eqR _ _ E). unfold Q2R. simpl. lra. Qed.

Lemma position_real (e lo hi : Q) :
  ~ (hi - lo == 0)%Q ->
  Q2R (e / (hi - lo)) = (Q2R e / (Q2R hi - Q2R lo))%R.
Proof.
  intros N. rewrite Q2R_div by exact N. rewrite Q2R_minus. reflexivity.
Qed.

Lemma assigned_well_formed (font : Font) (a : DialArgs) (s0 s : Dial) (vs : list Q) :
  Dial__init__ font a = Ok s0 ->
  assign_all s0 vs = Ok s ->
  well_formed s /\ args s = a /\ static_part s = static_part s0.
Proof.
  intros H A.
  destruct (init_well_formed _ _ _ H) as [W0 A0].
  destruct (assign_all_spec vs s0 W0) as [s' [E [St W]]].
  rewrite E in A. inversion A. subst s'.
  split; [exact W | ]. split; [ | exact St].
  unfold static_part in St. congruence.
Qed.

Lemma default_dial_assigned (vs : list Q) :
  exists s0 s,
    Dial__init__ cell_font default_args = Ok s0 /\ assign_all s0 vs = Ok s.
Proof.
  destruct default_dial_exists as [s0 H].
  destruct (init_well_formed _ _ _ H) as [W0 _].
  destruct (assign_all_spec vs s0 W0) as [s [E _]].
  exists s0, s. split; assumption.
Qed.

(** The needle of the default widget at mid range points straight up,
    and at the minimum straight down. *)
Lemma real_floor_unique (r : R) (z : Z) :
  (IZR z <= r < IZR z + 1)%R -> PyR.floor r = z.
Proof.
  intros [L U]. unfold PyR.floor. symmetry. apply Int_part_spec. lra.
Qed.

Lemma real_round_int (n : Z) : PyR.round (IZR n) = n.
Proof.
  unfold PyR.round.
  rewrite (real_floor_unique (IZR n) n) by lra.
  destruct (Rlt_dec (IZR n - IZR n) (1 / 2)) as [ | N]; [reflexivity | ].
  exfalso. apply N. lra.
Qed.

Lemma real_round_half (n : Z) :
  PyR.round (IZR n + 1 / 2) = if Z.even n then n else n + 1.
Proof.
  unfold PyR.round.
  rewrite (real_floor_unique (IZR n + 1 / 2) n) by lra.
  destruct (Rlt_dec (IZR n + 1 / 2 - IZR n) (1 / 2)) as [L | _]; [exfalso; lra | ].
  destruct (Rlt_dec (1 / 2) (IZR n + 1 / 2 - IZR n)) as [L | _]; [exfalso; lra | ].
  reflexivity.
Qed.

Example needle_at_midrange (self : Dial) :
  _dial_center self = (50, 50) -> _dial_radius self = 45 ->
  needle_pad self = 10 -> _dial_half self = 0 -> _needle_width self = 3 ->
  needle_vertices self (1 # 2) = [(48, 50); (52, 50); (52, 15); (48, 15)].
Proof.
  intros C R P H W.
  assert (A : angle_offset (1 # 2) = 0%R).
  { rewrite angle_offset_formula. unfold Q2R. simpl. field. }
  unfold needle_vertices. rewrite A, C, R, P, H, W, cos_0, sin_0.
  cbn [fst snd]. replace (45 - 10) with 35 by reflexivity.
  repeat match goal with
  | |- context [PyR.round ?e] =>
      first
        [ replace e with (IZR 48 + 1 / 2)%R by lra; rewrite (real_round_half 48)
        | replace e with (IZR 51 + 1 / 2)%R by lra; rewrite (real_round_half 51)
        | replace e with (IZR 50) by lra; rewrite (real_round_int 50)
        | replace e with (IZR 15) by lra; rewrite (real_round_int 15) ]
  end.
  reflexivity.
Qed.

Example needle_at_minimum (self : Dial) :
  _dial_center self = (50, 50) -> _dial_radius self = 45 ->
  needle_pad self = 10 -> _dial_half self = 0 -> _needle_width self = 3 ->
  needle_vertices self 0 = [(52, 50); (48, 50); (48, 85); (52, 85)].
Proof.
  intros C R P H W.
  assert (A : angle_offset 0 = (- PI)%R).
  { rewrite angle_offset_formula. unfold Q2R. simpl. field. }
  unfold needle_vertices.
  rewrite A, C, R, P, H, W, cos_neg, sin_neg, cos_PI, sin_PI.
  cbn [fst snd]. replace (45 - 10) with 35 by reflexivity.
  repeat match goal with
  | |- context [PyR.round ?e] =>
      first
        [ replace e with (IZR 48 + 1 / 2)%R by lra; rewrite (real_round_half 48)
        | replace e with (IZR 51 + 1 / 2)%R by lra; rewrite (real_round_half 51)
        | replace e with (IZR 50) by lra; rewrite (real_round_int 50)
        | replace e with (IZR 85) by lra; rewrite (real_round_int 85) ]
  end.
  reflexivity.
Qed.

(** ** Labels *)

Lemma calls_draw_on_dial (s : Dial) (c c0 : draw_call) :
  In c0 (bitmap_calls (dial_bitmap s)) ->
  In c0 (bitmap_calls (dial_bitmap (draw_on_dial s c))).
Proof.
  intros H. cbn. apply in_or_app. left. exact H.
Qed.

Lemma calls_for_each_label n l c0 : forall s s',
  for_each (draw_label n) l s = Ok s' ->
  In c0 (bitmap_calls (dial_bitmap s)) ->
  In c0 (bitmap_calls (dial_bitmap s')).
Proof.
  induction l as [ | e l IH]; intros s s' H I; simpl in H.
  - inversion H. subst s'. exact I.
  - unfold draw_label at 1 in H.
    destruct (n - 1 =? 0); simpl in H; [discriminate | ].
    apply (IH _ _ H). apply calls_draw_on_dial. exact I.
Qed.

Lemma calls_draw_outline c0 pts : forall s,
  In c0 (bitmap_calls (dial_bitmap s)) ->
  In c0 (bitmap_calls (dial_bitmap (draw_outline s pts))).
Proof.
  induction pts as [ | p pts IH]; intros s I; [exact I | ].
  destruct pts as [ | q pts]; [exact I | ].
  change (draw_outline s (p :: q :: pts))
    with (draw_outline
            (draw_on_dial s (DrawLine (fst p) (snd p) (fst q) (snd q) 2))
            (q :: pts)).
  apply IH. apply calls_draw_on_dial. exact I.
Qed.

Lemma label_call_ext (s s' : Dial) (n i : Z) (t : string) :
  geometry s = geometry s' -> label_call s n i t = label_call s' n i t.
Proof.
  intros G. unfold geometry in G. inversion G as [[A V Hf F Fh W He C R]].
  unfold label_call. rewrite A, F, Fh, C, R. reflexivity.
Qed.

Lemma label_calls_for_each n l i t : forall s s',
  for_each (draw_label n) l s = Ok s' ->
  In (i, t) l ->
  In (label_call s n i t) (bitmap_calls (dial_bitmap s')).
Proof.
  induction l as [ | e l IH]; intros s s' H I; [contradiction | ].
  simpl in H. unfold draw_label at 1 in H.
  destruct (n - 1 =? 0); simpl in H; [discriminate | ].
  destruct I as [E | I].
  - subst e. apply (calls_for_each_label _ _ _ _ _ H).
    cbn. apply in_or_app. right. left. reflexivity.
  - rewrite (label_call_ext s
               (draw_on_dial s (label_call s n (fst e) (snd e))) n i t)
      by reflexivity.
    apply (IH _ _ H I).
Qed.

Lemma bitmap_append (s : Dial) (l : Layer) : dial_bitmap (append s l) = dial_bitmap s.
Proof. reflexivity. Qed.

Lemma bitmap_create_needle (s : Dial) : dial_bitmap (_create_needle s) = dial_bitmap s.
Proof. reflexivity. Qed.

Lemma bitmap_with_dial_palette (s : Dial) (p : Palette) :
  dial_bitmap (with_dial_palette s p) = dial_bitmap s.
Proof. reflexivity. Qed.

(** Every label of the constructor's arguments is on the face bitmap,
    drawn by the call [label_call] describes. *)
Lemma init_label_calls (font : Font) (a : DialArgs) (self : Dial) (i : Z)
  (t : string) :
  Dial__init__ font a = Ok self ->
  In (i, t) (py_enumerate (seq_items (major_tick_labels a))) ->
  In (label_call self
        (Z.of_nat (List.length (seq_items (major_tick_labels a)))) i t)
     (bitmap_calls (dial_bitmap self)).
Proof.
  unfold Dial__init__, _initialize_dial.
  fold (initial_value a). fold (chosen_font font a).
  destruct (_get_font_height _ _ _) as [fh | e]; [ | discriminate].
  cbn [bind].
  destruct (_adjust_dimensions _ _ _) as [d | e]; [ | discriminate].
  cbn [bind].
  match goal with
  | |- context [draw_labels ?s] => set (s2 := s)
  end.
  destruct (draw_labels s2) as [s3 | e] eqn:L; [ | discriminate].
  cbn [bind].
  match goal with
  | |- _update_needle ?s _ = _ -> _ => set (s8 := s)
  end.
  intros U I.
  assert (A2 : args s2 = a).
  { assert (G : geometry s2 = geometry s2) by reflexivity.
    unfold s2 in G at 2. rewrite !geometry_draw_ticks in G.
    unfold geometry in G. cbn [args] in G. congruence. }
  assert (G3 : geometry s3 = geometry s2) by (apply geometry_draw_labels; exact L).
  assert (G8 : geometry s8 = geometry s3).
  { unfold s8.
    rewrite geometry_append, geometry_create_needle, geometry_draw_outline.
    rewrite geometry_append, geometry_with_dial_palette. reflexivity. }
  pose proof (geometry_update_needle _ _ _ U) as GU.
  destruct (static_update_needle _ _ _ U) as [St _].
  assert (B : dial_bitmap self = dial_bitmap s8)
    by (unfold static_part in St; congruence).
  rewrite B.
  rewrite (label_call_ext self s2) by congruence.
  unfold s8.
  rewrite bitmap_append, bitmap_create_needle.
  apply calls_draw_outline.
  rewrite bitmap_append, bitmap_with_dial_palette.
  unfold draw_labels in L.
  change (major_tick_labels s2) with (major_tick_labels (args s2)) in L.
  rewrite A2 in L.
  apply (label_calls_for_each _ _ _ _ _ _ L I).
Qed.

Lemma label_angle_second_of_five : label_angle 5 1 = (- PI / 2)%R.
Proof.
  unfold label_angle.
  replace (IZR (1 * 360)) with 360%R by (simpl; reflexivity).
  replace (IZR (5 - 1)) with 4%R by (simpl; reflexivity).
  field.
Qed.

Lemma no_rotation_dial_exists :
  exists s,
    Dial__init__ cell_font
      (dial_args 100 100 5 true None 0 100 default_labels None false) = Ok s.
Proof.
  apply init_succeeds.
  - reflexivity.
  - unfold invalid_dimensions. cbn. lia.
  - cbn. lia.
  - cbn. intros H. discriminate H.
Qed.

(** * The claims *)

(** C1: every needle update, the one of the constructor and the one of
    the setter, converts the value it works on (the stored value,
    constrained to the range only when [_limit_rotation] is set) to the
    position value / (max_value - min_value), with no subtraction of
    [min_value] in the numerator, and the needle angle is
    -pi + 2 pi position.  With min_value 0 and max_value 100 the value 0
    gives -pi and the value 100 gives +pi; with min_value 50 and
    max_value 150 the value 50 gives angle 0, not -pi. *)
Theorem needle_angle_formula (self : Dial) :
  ~ (max_value self - min_value self == 0)%Q ->
  let v := _value self in
  let e := effective_value self v in
  let position := (e / (max_value self - min_value self))%Q in
  _update_needle self v = Ok (_draw_position self position)
  /\ points (_needle (_draw_position self position))
     = needle_vertices self position
  /\ angle_offset position
     = (- PI + 2 * PI * (Q2R e / (Q2R (max_value self) - Q2R (min_value self))))%R
  /\ (limit_rotation self = false
      \/ ((min_value self <= v)%Q /\ (v <= max_value self)%Q) -> e = v)
  /\ (forall s0 v0, self = with_value s0 v0 -> ~ (v0 == _value s0)%Q ->
      value_setter s0 v0 = _update_needle self v)
  /\ ((min_value self == 0)%Q -> (max_value self == 100)%Q ->
      ((v == 0)%Q -> angle_offset position = (- PI)%R)
      /\ ((v == 100)%Q -> angle_offset position = PI))
  /\ ((min_value self == 50)%Q -> (max_value self == 150)%Q -> (v == 50)%Q ->
      angle_offset position = 0%R).
Proof.
  intros Span v e position.
  assert (Inside : limit_rotation self = false
                   \/ ((min_value self <= v)%Q /\ (v <= max_value self)%Q) -> e = v).
  { intros [L | [Lo Hi]]; unfold e, effective_value.
    - rewrite L. reflexivity.
    - destruct (limit_rotation self); [ | reflexivity].
      apply constrain_inside; assumption. }
  assert (Angle : angle_offset position
     = (- PI + 2 * PI * (Q2R e / (Q2R (max_value self) - Q2R (min_value self))))%R).
  { rewrite angle_offset_formula. unfold position.
    rewrite (position_real _ _ _ Span). reflexivity. }
  split; [apply update_needle_total; exact Span | ].
  split; [reflexivity | ].
  split; [exact Angle | ].
  split; [exact Inside | ].
  split.
  { intros s0 v0 E N. rewrite (setter_changed _ _ N). unfold v. rewrite E.
    reflexivity. }
  split.
  - intros Lo Hi. split; intros V.
    + assert (Ev : e = v).
      { apply Inside. right. rewrite Lo, Hi, V. split; discriminate. }
      rewrite Angle, Ev.
      rewrite (Q2R_const_0 _ V), (Q2R_const_0 _ Lo), (Q2R_const_100 _ Hi).
      field.
    + assert (Ev : e = v).
      { apply Inside. right. rewrite Lo, Hi, V. split; discriminate. }
      rewrite Angle, Ev.
      rewrite (Q2R_const_100 _ V), (Q2R_const_0 _ Lo), (Q2R_const_100 _ Hi).
      field.
  - intros Lo Hi V.
    assert (Ev : e = v).
    { apply Inside. right. rewrite Lo, Hi, V. split; discriminate. }
    rewrite Angle, Ev.
    rewrite (Q2R_const_50 _ V), (Q2R_const_50 _ Lo), (Q2R_const_150 _ Hi).
    field.
Qed.

Lemma needle_angle_formula_witness :
  exists self,
    Dial__init__ cell_font default_args = Ok self
    /\ ~ (max_value self - min_value self == 0)%Q
    /\ angle_offset
         (effective_value self (_value self) / (max_value self - min_value self))
       = (- PI)%R.
Proof.
  destruct default_dial_exists as [self H].
  exists self. split; [exact H | ].
  destruct (init_inversion _ _ _ H) as [fh [d [_ [_ [G [Span _]]]]]].
  split; [exact Span | ].
  assert (A : args self = default_args) by (unfold geometry in G; congruence).
  assert (V : _value self = initial_value default_args)
    by (unfold geometry in G; congruence).
  destruct (needle_angle_formula self Span) as [_ [_ [_ [_ [_ [Z100 _]]]]]].
  apply Z100.
  - rewrite A. reflexivity.
  - rewrite A. reflexivity.
  - rewrite V. reflexivity.
Defined.

(** C2: on a widget built with limit_rotation True, min_value 0 and
    max_value 100, in whatever state assignments have left it, assigning
    150 gives the needle the same four vertices as assigning 100, and
    assigning -10 the same as assigning 0; in general the vertices are
    those of the assigned value constrained to the range.  With
    limit_rotation False they are those of the assigned value itself. *)
Theorem limit_rotation_clamps (font : Font) (a : DialArgs) (s0 s : Dial)
  (vs : list Q) :
  Dial__init__ font a = Ok s0 ->
  assign_all s0 vs = Ok s ->
  (limit_rotation a = true -> (min_value a == 0)%Q -> (max_value a == 100)%Q ->
   exists s150 s100 sm10 sz,
     value_setter s 150 = Ok s150 /\ value_setter s 100 = Ok s100
     /\ points (_needle s150) = points (_needle s100)
     /\ value_setter s (-10) = Ok sm10 /\ value_setter s 0 = Ok sz
     /\ points (_needle sm10) = points (_needle sz))
  /\ (limit_rotation a = true -> forall v, exists s',
        value_setter s v = Ok s'
        /\ points (_needle s') =
           needle_vertices s
             (PyQ.max (PyQ.min v (max_value a)) (min_value a)
              / (max_value a - min_value a)))
  /\ (limit_rotation a = false -> forall v, exists s',
        value_setter s v = Ok s'
        /\ points (_needle s') =
           needle_vertices s (v / (max_value a - min_value a))).
Proof.
  intros H A.
  destruct (assigned_well_formed _ _ _ _ _ H A) as [W [Ar _]].
  assert (Lim : limit_rotation a = true -> forall v, exists s',
        value_setter s v = Ok s'
        /\ points (_needle s') =
           needle_vertices s
             (PyQ.max (PyQ.min v (max_value a)) (min_value a)
              / (max_value a - min_value a))).
  { intros L v. destruct (setter_spec s v W) as [s' [E [P _]]].
    exists s'. split; [exact E | ]. rewrite P.
    unfold position_for, effective_value. cbn [args with_value _value].
    rewrite Ar, L. reflexivity. }
  split; [ | split; [exact Lim | ]].
  - intros L Lo Hi.
    destruct (Lim L 150%Q) as [s150 [E150 P150]].
    destruct (Lim L 100%Q) as [s100 [E100 P100]].
    destruct (Lim L (-10)%Q) as [sm10 [Em10 Pm10]].
    destruct (Lim L 0%Q) as [sz [Ez Pz]].
    exists s150, s100, sm10, sz.
    assert (Le : (min_value a <= max_value a)%Q) by (rewrite Lo, Hi; discriminate).
    split; [exact E150 | ]. split; [exact E100 | ].
    split.
    { rewrite P150, P100. apply needle_vertices_comp.
      rewrite constrain_above; [ | exact Le | rewrite Hi; reflexivity].
      rewrite constrain_inside;
        [ | rewrite Lo; discriminate | rewrite Hi; discriminate].
      rewrite Hi. reflexivity. }
    split; [exact Em10 | ]. split; [exact Ez | ].
    rewrite Pm10, Pz. apply needle_vertices_comp.
    rewrite constrain_below; [ | exact Le | rewrite Lo; reflexivity].
    rewrite constrain_inside;
      [ | rewrite Lo; discriminate | rewrite Hi; discriminate].
    rewrite Lo. reflexivity.
  - intros L v. destruct (setter_spec s v W) as [s' [E [P _]]].
    exists s'. split; [exact E | ]. rewrite P.
    unfold position_for, effective_value. cbn [args with_value _value].
    rewrite Ar, L. reflexivity.
Qed.

Lemma limit_rotation_clamps_witness :
  exists s0 s,
    Dial__init__ cell_font default_args = Ok s0
    /\ assign_all s0 [30%Q; 150%Q] = Ok s
    /\ exists s150 s100 sm10 sz,
         value_setter s 150 = Ok s150 /\ value_setter s 100 = Ok s100
         /\ points (_needle s150) = points (_needle s100)
         /\ value_setter s (-10) = Ok sm10 /\ value_setter s 0 = Ok sz
         /\ points (_needle sm10) = points (_needle sz).
Proof.
  destruct (default_dial_assigned [30%Q; 150%Q]) as [s0 [s [H A]]].
  exists s0, s. split; [exact H | ]. split; [exact A | ].
  destruct (limit_rotation_clamps cell_font default_args s0 s _ H A) as [C _].
  apply C; reflexivity.
Defined.

Lemma init_font_failure (font : Font) (a : DialArgs) (e : py_exception) :
  _get_font_height (major_tick_labels a) (Some (chosen_font font a))
    (tick_label_scale a) = Raise e ->
  Dial__init__ font a = Raise e.
Proof.
  intros F. unfold Dial__init__, _initialize_dial.
  fold (chosen_font font a). rewrite F. reflexivity.
Qed.

(** C3 as stated fails in both directions for the construction.  With
    width 10 and padding 10 (an invalid box) and a font that has neither
    accessor, the construction raises [UnboundLocalError], not
    [ValueError]: the font height is looked up before the dimensions are
    checked.  With width 100, height 100 and padding 5 (a valid box) and
    min_value = max_value = 50, the construction raises
    [ZeroDivisionError]. *)
Lemma construction_error_counterexample :
  (10 - 2 * 10 < 0
   /\ Dial__init__ cell_font
        (dial_args 10 100 10 true None 0 100 default_labels (Some bare_font) true)
      = Raise (UnboundLocalError "font_height"))
  /\ (0 <= 100 - 2 * 5 /\ 0 <= 100 - 2 * 5
      /\ Dial__init__ cell_font
           (dial_args 100 100 5 true None 50 50 default_labels None true)
         = Raise ZeroDivisionError).
Proof.
  split.
  - split; [lia | ]. apply init_font_failure. reflexivity.
  - split; [lia | ]. split; [lia | ].
    set (a := dial_args 100 100 5 true None 50 50 default_labels None true).
    destruct (Dial__init__ cell_font a) as [self | e] eqn:H.
    + exfalso. destruct (init_well_formed _ _ _ H) as [[Span _] A].
      apply Span. rewrite A. reflexivity.
    + f_equal. apply init_raises in H.
      destruct H as [[_ F] | [[_ D] | E]].
      * vm_compute in F. discriminate F.
      * vm_compute in D. discriminate D.
      * exact E.
Qed.

(** C3, as the code has it: the dimension check [_adjust_dimensions]
    raises its [ValueError] if and only if width - 2*padding < 0 or
    height - 2*padding < 0, raises nothing else and then returns no
    dimensions.  The construction raises that [ValueError] if and only
    if the condition holds and the font height lookup, which runs
    first, has succeeded; whenever the condition holds the construction
    fails and returns no widget; no other [ValueError] comes out of the
    construction.  Width 10 with padding 10 fails the check whatever the
    height. *)
Theorem invalid_dimension_iff (p w h : Z) :
  (_adjust_dimensions p w h = Raise (ValueError zero_box_msg)
   <-> (w - 2 * p < 0 \/ h - 2 * p < 0))
  /\ (succeeds (_adjust_dimensions p w h) = false
      <-> (w - 2 * p < 0 \/ h - 2 * p < 0))
  /\ (forall e, _adjust_dimensions p w h = Raise e -> e = ValueError zero_box_msg)
  /\ (forall font a,
         padding a = p -> width a = w -> height a = h ->
         (Dial__init__ font a = Raise (ValueError zero_box_msg)
          <-> (succeeds (_get_font_height (major_tick_labels a)
                           (Some (chosen_font font a)) (tick_label_scale a)) = true
               /\ (w - 2 * p < 0 \/ h - 2 * p < 0)))
         /\ ((w - 2 * p < 0 \/ h - 2 * p < 0) ->
             succeeds (Dial__init__ font a) = false)
         /\ (forall msg, Dial__init__ font a = Raise (ValueError msg) ->
             msg = zero_box_msg /\ (w - 2 * p < 0 \/ h - 2 * p < 0)))
  /\ (p = 10 -> w = 10 ->
      _adjust_dimensions p w h = Raise (ValueError zero_box_msg)).
Proof.
  fold (invalid_dimensions p w h).
  assert (I1 : _adjust_dimensions p w h = Raise (ValueError zero_box_msg)
               <-> invalid_dimensions p w h).
  { split; [ | apply adjust_invalid].
    intros H. destruct (invalid_dimensions_dec p w h) as [ | V]; [assumption | ].
    rewrite (adjust_valid _ _ _ V) in H. discriminate. }
  split; [exact I1 | ].
  split.
  { split.
    - intros H. destruct (invalid_dimensions_dec p w h) as [ | V]; [assumption | ].
      rewrite (adjust_valid _ _ _ V) in H. discriminate.
    - intros H. rewrite (adjust_invalid _ _ _ H). reflexivity. }
  split; [apply adjust_raises_only_ValueError | ].
  split.
  { intros font a Hp Hw Hh. subst p w h.
    assert (Val : forall msg, Dial__init__ font a = Raise (ValueError msg) ->
                  msg = zero_box_msg
                  /\ invalid_dimensions (padding a) (width a) (height a)).
    { intros msg H. apply init_raises in H.
      destruct H as [[E _] | [[E D] | E]]; try discriminate.
      split; [congruence | ]. rewrite E in D. apply I1. exact D. }
    split; [ | split; [ | exact Val]].
    - split.
      + intros H. split; [ | apply (Val _ H)].
        destruct (_get_font_height (major_tick_labels a)
                    (Some (chosen_font font a)) (tick_label_scale a))
          as [fh | e] eqn:F; [reflexivity | ].
        rewrite (init_font_failure font a e F) in H.
        apply get_font_height_raises in F. rewrite F in H. discriminate H.
      + intros [F I]. destruct (init_invalid_dimensions font a I) as [e [E Ev]].
        rewrite E. f_equal. apply Ev. exact F.
    - intros I. destruct (init_invalid_dimensions font a I) as [e [E _]].
      rewrite E. reflexivity. }
  intros Hp Hw. apply adjust_invalid. unfold invalid_dimensions. lia.
Qed.

(** C4 as stated fails: width 1, height 1, padding 0 is valid and has
    width > 2*padding, yet the radius is round(0.5) = 0. *)
Lemma radius_zero_counterexample :
  0 <= 1 - 2 * 0 /\ 0 <= 1 - 2 * 0 /\ 1 > 2 * 0
  /\ _adjust_dimensions 0 1 1 =
     Ok {| dim_width := 1; dim_height := 1; dim_center := (0, 0); dim_radius := 0 |}
  /\ exists self,
       Dial__init__ cell_font
         (dial_args 1 1 0 true None 0 100 default_labels None true) = Ok self
       /\ _dial_radius self = 0.
Proof.
  split; [lia | ]. split; [lia | ]. split; [lia | ].
  assert (D : _adjust_dimensions 0 1 1 =
     Ok {| dim_width := 1; dim_height := 1; dim_center := (0, 0); dim_radius := 0 |})
    by (vm_compute; reflexivity).
  split; [exact D | ].
  destruct (init_succeeds cell_font
              (dial_args 1 1 0 true None 0 100 default_labels None true))
    as [self H].
  - reflexivity.
  - unfold invalid_dimensions. cbn. lia.
  - cbn. lia.
  - cbn. intros E. discriminate E.
  - exists self. split; [exact H | ].
    apply (init_dimensions _ _ _ _ H D).
Qed.

(** C4, as the code has it: for valid dimensions [_adjust_dimensions]
    succeeds with a radius that is never negative, is strictly positive
    exactly when width - 2*padding >= 2, and is 0 when
    width - 2*padding is 0 or 1 (round(0.5) = 0). *)
Theorem adjust_dimensions_radius (p w h : Z) :
  0 <= w - 2 * p -> 0 <= h - 2 * p ->
  exists d,
    _adjust_dimensions p w h = Ok d
    /\ 0 <= dim_radius d
    /\ (0 < dim_radius d <-> 2 <= w - 2 * p)
    /\ (forall font a,
           padding a = p -> width a = w -> height a = h ->
           succeeds (_get_font_height (major_tick_labels a)
                       (Some (chosen_font font a)) (tick_label_scale a)) = true ->
           List.length (seq_items (major_tick_labels a)) <> 1%nat ->
           ~ (max_value a - min_value a == 0)%Q ->
           exists self,
             Dial__init__ font a = Ok self /\ _dial_radius self = dim_radius d).
Proof.
  intros Hw Hh.
  assert (V : ~ invalid_dimensions p w h) by (unfold invalid_dimensions; lia).
  pose proof (adjust_valid _ _ _ V) as D.
  eexists. split; [exact D | ].
  cbn [dim_radius].
  split; [apply round_half_nonneg; exact Hw | ].
  split.
  { split.
    - intros Pos.
      destruct (Z_le_gt_dec 2 (w - 2 * p)) as [ | Small]; [assumption | ].
      assert (Hc : w - 2 * p = 0 \/ w - 2 * p = 1) by lia.
      destruct Hc as [E | E]; rewrite E in Pos; vm_compute in Pos; discriminate.
    - apply round_half_pos. }
  intros font a Hp Hwa Hha F N S. subst p w h.
  destruct (init_succeeds font a F V N S) as [self H].
  exists self. split; [exact H | ].
  apply (init_dimensions _ _ _ _ H D).
Qed.

Lemma adjust_dimensions_radius_witness :
  exists d,
    _adjust_dimensions 12 150 150 = Ok d
    /\ 0 < dim_radius d
    /\ exists self,
         Dial__init__ cell_font
           (dial_args 150 150 12 true None 0 100 default_labels None true) = Ok self
         /\ _dial_radius self = dim_radius d.
Proof.
  destruct (adjust_dimensions_radius 12 150 150) as [d [D [_ [P C]]]];
    [lia | lia | ].
  exists d. split; [exact D | ].
  split; [apply P; lia | ].
  apply C; try reflexivity.
  - cbn. lia.
  - cbn. intros H. discriminate H.
Defined.

(** C5: assigning to [value] a number equal to the stored one returns
    the widget as it is: the needle update is not run (so the assignment
    cannot even fail) and the four vertices are the same before and
    after. *)
Theorem same_value_is_noop (self : Dial) (v : Q) :
  (v == value_getter self)%Q ->
  value_setter self v = Ok self
  /\ (forall self', value_setter self v = Ok self' ->
      points (_needle self') = points (_needle self)).
Proof.
  intros E. pose proof (setter_same self v E) as H.
  split; [exact H | ].
  intros self' H'. rewrite H in H'. inversion H'. reflexivity.
Qed.

Lemma same_value_is_noop_witness :
  exists self,
    Dial__init__ cell_font default_args = Ok self
    /\ value_setter self 0 = Ok self
    /\ (forall self', value_setter self 0 = Ok self' ->
        points (_needle self') = points (_needle self)).
Proof.
  destruct default_dial_exists as [self H].
  exists self. split; [exact H | ].
  apply (same_value_is_noop self 0).
  destruct (init_inversion _ _ _ H) as [fh [d [_ [_ [G _]]]]].
  unfold geometry in G. unfold value_getter.
  assert (V : _value self = initial_value default_args) by congruence.
  rewrite V. reflexivity.
Defined.

(** C6: for valid dimensions [_adjust_dimensions] returns
    radius = round((width - 2*padding)/2),
    center = (round(radius) + padding, round(radius) + padding) and
    face height = ceil(width - 2*padding) + 2*padding, an expression of
    [width] only (it equals [width]; the caller's height is not used);
    width 150, height 150, padding 12 gives radius 63 and center (75, 75). *)
Theorem adjust_dimensions_geometry (p w h : Z) :
  0 <= w - 2 * p -> 0 <= h - 2 * p ->
  exists d,
    _adjust_dimensions p w h = Ok d
    /\ dim_radius d = PyQ.round (inject_Z (w - 2 * p) / 2)
    /\ dim_center d = (PyQ.round (inject_Z (dim_radius d)) + p,
                       PyQ.round (inject_Z (dim_radius d)) + p)
    /\ dim_height d = PyQ.ceil (inject_Z (w - 2 * p)) + 2 * p
    /\ dim_height d = w
    /\ dim_width d = w
    /\ (p = 12 -> w = 150 -> h = 150 ->
        dim_radius d = 63 /\ dim_center d = (75, 75))
    /\ (forall font a self,
           padding a = p -> width a = w -> height a = h ->
           Dial__init__ font a = Ok self ->
           _dial_radius self = dim_radius d
           /\ _dial_center self = dim_center d
           /\ _width self = dim_width d
           /\ _height self = dim_height d).
Proof.
  intros Hw Hh.
  assert (V : ~ invalid_dimensions p w h) by (unfold invalid_dimensions; lia).
  pose proof (adjust_valid _ _ _ V) as D.
  eexists. split; [exact D | ].
  cbn [dim_radius dim_center dim_height dim_width].
  rewrite round_inject_Z.
  unfold PyQ.ceil. rewrite Qceiling_Z.
  split; [reflexivity | ]. split; [reflexivity | ].
  split; [lia | ]. split; [reflexivity | ]. split; [reflexivity | ].
  split.
  - intros -> -> ->. split; vm_compute; reflexivity.
  - intros font a self Hp Hwa Hha H. subst p w h.
    apply (init_dimensions _ _ _ _ H D).
Qed.

Lemma adjust_dimensions_geometry_witness :
  exists d,
    _adjust_dimensions 12 150 150 = Ok d
    /\ dim_radius d = PyQ.round (inject_Z (150 - 2 * 12) / 2)
    /\ dim_center d = (PyQ.round (inject_Z (dim_radius d)) + 12,
                       PyQ.round (inject_Z (dim_radius d)) + 12)
    /\ dim_height d = PyQ.ceil (inject_Z (150 - 2 * 12)) + 2 * 12
    /\ dim_height d = 150
    /\ dim_width d = 150
    /\ dim_radius d = 63 /\ dim_center d = (75, 75).
Proof.
  destruct (adjust_dimensions_geometry 12 150 150) as [d [D [R [C [Hc [Hh [Hw [E _]]]]]]]];
    [lia | lia | ].
  exists d. repeat (split; [assumption | ]).
  apply E; reflexivity.
Defined.

(** C7, on the code: with the default (non-empty) labels and a font that
    has neither accessor, [_get_font_height] and the construction fail,
    but with the interpreter's [UnboundLocalError] for the unassigned
    local [font_height]; no [raise] statement produces it. *)
Theorem unsupported_font_unbound_local (a : DialArgs) (font : Font) :
  major_tick_labels a = default_labels ->
  tick_label_font a = Some bare_font ->
  _get_font_height (major_tick_labels a) (Some bare_font) (tick_label_scale a)
  = Raise (UnboundLocalError "font_height")
  /\ Dial__init__ font a = Raise (UnboundLocalError "font_height")
  /\ raised_by_statement (UnboundLocalError "font_height") = false.
Proof.
  intros L F.
  assert (G : _get_font_height (major_tick_labels a) (Some bare_font)
                (tick_label_scale a) = Raise (UnboundLocalError "font_height")).
  { rewrite L. reflexivity. }
  split; [exact G | ]. split; [ | reflexivity].
  unfold Dial__init__, _initialize_dial. rewrite F, G. reflexivity.
Qed.

Lemma unsupported_font_unbound_local_witness :
  _get_font_height default_labels (Some bare_font) 1
  = Raise (UnboundLocalError "font_height")
  /\ Dial__init__ cell_font
       (dial_args 100 100 5 true None 0 100 default_labels (Some bare_font) true)
     = Raise (UnboundLocalError "font_height")
  /\ raised_by_statement (UnboundLocalError "font_height") = false.
Proof.
  apply (unsupported_font_unbound_local
           (dial_args 100 100 5 true None 0 100 default_labels (Some bare_font) true)
           cell_font); reflexivity.
Defined.

(** C8, on the code: [rotate_tick_labels] is never read.  On a widget
    built with the flag False and the default labels, the face bitmap
    holds the call that draws label "25", and that call rotates by the
    tick angle -pi/2, which is not zero. *)
Theorem label_rotation_ignores_flag (font : Font) (a : DialArgs) (self : Dial) :
  Dial__init__ font a = Ok self ->
  rotate_tick_labels a = false ->
  major_tick_labels a = default_labels ->
  In (label_call self 5 1 "25") (bitmap_calls (dial_bitmap self))
  /\ (exists ox oy source px py scale,
        label_call self 5 1 "25"
        = Rotozoom ox oy source px py (- PI / 2)%R scale)
  /\ (- PI / 2 <> 0)%R.
Proof.
  intros H _ L.
  split.
  - pose proof (init_label_calls font a self 1 "25" H) as I.
    rewrite L in I. apply I. cbn. right. left. reflexivity.
  - split.
    + unfold label_call. rewrite label_angle_second_of_five.
      do 6 eexists. reflexivity.
    + pose proof PI_RGT_0. lra.
Qed.

Lemma label_rotation_ignores_flag_witness :
  exists self,
    Dial__init__ cell_font
      (dial_args 100 100 5 true None 0 100 default_labels None false) = Ok self
    /\ In (label_call self 5 1 "25") (bitmap_calls (dial_bitmap self))
    /\ (exists ox oy source px py scale,
          label_call self 5 1 "25"
          = Rotozoom ox oy source px py (- PI / 2)%R scale)
    /\ (- PI / 2 <> 0)%R.
Proof.
  destruct no_rotation_dial_exists as [self H].
  exists self. split; [exact H | ].
  apply (label_rotation_ignores_flag cell_font _ self H); reflexivity.
Defined.

(** C9: on a constructed widget every sequence of assignments to [value]
    succeeds and leaves the face bitmap (its size and every drawing call
    applied to it) and its palette as the constructor left them; apart
    from the stored value the only component that differs is the
    needle's point list, which is the freshly computed list of four
    vertices for the stored value. *)
Theorem value_updates_keep_face (font : Font) (a : DialArgs) (s0 : Dial)
  (vs : list Q) :
  Dial__init__ font a = Ok s0 ->
  exists s,
    assign_all s0 vs = Ok s
    /\ dial_bitmap s = dial_bitmap s0
    /\ dial_palette s = dial_palette s0
    /\ static_part s = static_part s0
    /\ points (_needle s) =
       needle_vertices s
         (effective_value s (_value s) / (max_value s - min_value s))
    /\ List.length (points (_needle s)) = 4%nat.
Proof.
  intros H.
  destruct (init_well_formed _ _ _ H) as [W0 _].
  destruct (assign_all_spec vs s0 W0) as [s [E [St [_ Sync]]]].
  exists s. split; [exact E | ].
  split; [unfold static_part in St; congruence | ].
  split; [unfold static_part in St; congruence | ].
  split; [exact St | ].
  split; [exact Sync | ].
  rewrite Sync. apply needle_vertices_length.
Qed.

Lemma value_updates_keep_face_witness :
  exists s0,
    Dial__init__ cell_font default_args = Ok s0
    /\ exists s,
         assign_all s0 [30%Q; 150%Q; 150%Q; (-10)%Q] = Ok s
         /\ dial_bitmap s = dial_bitmap s0
         /\ dial_palette s = dial_palette s0
         /\ static_part s = static_part s0
         /\ points (_needle s) =
            needle_vertices s
              (effective_value s (_value s) / (max_value s - min_value s))
         /\ List.length (points (_needle s)) = 4%nat.
Proof.
  destruct default_dial_exists as [s0 H].
  exists s0. split; [exact H | ].
  apply (value_updates_keep_face cell_font default_args s0 _ H).
Defined.

(** C10: the stored value is the assigned one, constrained or not: on a
    constructed widget, after any assignments, assigning [v] succeeds
    and the getter then returns a number equal to [v]; with
    limit_rotation True and max_value 100, assigning 150 makes the getter
    return 150 while the needle is drawn for max_value.  A widget built
    without [value] stores [min_value]. *)
Theorem stored_value_is_raw (font : Font) (a : DialArgs) (s0 s : Dial)
  (vs : list Q) (v : Q) :
  Dial__init__ font a = Ok s0 ->
  assign_all s0 vs = Ok s ->
  (value a = None -> value_getter s0 = min_value a)
  /\ exists s',
       value_setter s v = Ok s'
       /\ (value_getter s' == v)%Q
       /\ (limit_rotation a = true -> (min_value a <= max_value a)%Q ->
           (max_value a < v)%Q ->
           points (_needle s') =
           needle_vertices s (max_value a / (max_value a - min_value a)))
       /\ (limit_rotation a = true -> (max_value a == 100)%Q -> (v == 150)%Q ->
           (value_getter s' == 150)%Q).
Proof.
  intros H A.
  destruct (assigned_well_formed _ _ _ _ _ H A) as [W [Ar _]].
  split.
  { intros N. destruct (init_inversion _ _ _ H) as [fh [d [_ [_ [G _]]]]].
    unfold geometry in G. unfold value_getter.
    assert (V : _value s0 = initial_value a) by congruence.
    rewrite V. unfold initial_value. rewrite N. reflexivity. }
  destruct (setter_spec s v W) as [s' [E [P [_ [V _]]]]].
  exists s'. split; [exact E | ]. split; [exact V | ].
  split.
  - intros L Le Hi. rewrite P.
    unfold position_for, effective_value. cbn [args with_value _value].
    rewrite Ar, L. rewrite constrain_above by assumption. reflexivity.
  - intros _ _ V150. unfold value_getter. rewrite V. exact V150.
Qed.

Lemma stored_value_is_raw_witness :
  exists s0 s,
    Dial__init__ cell_font default_args = Ok s0
    /\ assign_all s0 [30%Q] = Ok s
    /\ value_getter s0 = 0%Q
    /\ exists s',
         value_setter s 150 = Ok s'
         /\ (value_getter s' == 150)%Q
         /\ points (_needle s') = needle_vertices s (100 / (100 - 0)).
Proof.
  destruct (default_dial_assigned [30%Q]) as [s0 [s [H A]]].
  exists s0, s. split; [exact H | ]. split; [exact A | ].
  destruct (stored_value_is_raw cell_font default_args s0 s _ 150%Q H A)
    as [V0 [s' [E [V [P _]]]]].
  split; [apply V0; reflexivity | ].
  exists s'. split; [exact E | ]. split; [exact V | ].
  apply P; [reflexivity | discriminate | reflexivity].
Defined.

(** * Further properties of the code *)

(** ** Rounding on reals *)

Lemma real_floor_bounds (x : R) : (IZR (PyR.floor x) <= x < IZR (PyR.floor x) + 1)%R.
Proof.
  unfold PyR.floor. destruct (base_Int_part x) as [L U]. lra.
Qed.

Lemma real_round_cases (x : R) :
  (PyR.round x = PyR.floor x /\ (x - IZR (PyR.floor x) <= 1 / 2)%R)
  \/ (PyR.round x = PyR.floor x + 1 /\ (1 / 2 <= x - IZR (PyR.floor x))%R).
Proof.
  unfold PyR.round.
  destruct (Rlt_dec (x - IZR (PyR.floor x)) (1 / 2)) as [L | NL].
  - left. split; [reflexivity | lra].
  - destruct (Rlt_dec (1 / 2) (x - IZR (PyR.floor x))) as [G | NG].
    + right. split; [reflexivity | lra].
    + destruct (Z.even (PyR.floor x)).
      * left. split; [reflexivity | lra].
      * right. split; [reflexivity | lra].
Qed.

(** [round] stays between integer bounds of its argument. *)
Lemma real_round_between (x : R) (a b : Z) :
  (IZR a <= x <= IZR b)%R -> a <= PyR.round x <= b.
Proof.
  intros [La Ub].
  destruct (real_floor_bounds x) as [Fl Fu].
  assert (Af : a <= PyR.floor x).
  { assert (H : (IZR a < IZR (PyR.floor x + 1))%R) by (rewrite plus_IZR; lra).
    apply lt_IZR in H. lia. }
  assert (Fb : PyR.floor x <= b).
  { apply le_IZR. lra. }
  destruct (real_round_cases x) as [[E _] | [E H]]; rewrite E.
  - lia.
  - split; [lia | ].
    assert (S : (IZR (PyR.floor x) < IZR b)%R) by lra.
    apply lt_IZR in S. lia.
Qed.

(** [round] is within one half of its argument. *)
Lemma real_round_error (x : R) : (Rabs (IZR (PyR.round x) - x) <= 1 / 2)%R.
Proof.
  destruct (real_floor_bounds x) as [Fl Fu].
  apply Rabs_le.
  destruct (real_round_cases x) as [[E H] | [E H]]; rewrite E;
    [ | rewrite plus_IZR]; lra.
Qed.

Lemma real_int_of_integer (n : Z) : PyR.int (IZR n) = n.
Proof.
  unfold PyR.int. destruct (Rle_dec 0 (IZR n)) as [P | N].
  - apply real_floor_unique. lra.
  - rewrite <- opp_IZR. rewrite (real_floor_unique (IZR (- n)) (- n)) by lra. lia.
Qed.

(** [int] stays between integer bounds of opposite signs. *)
Lemma real_int_between (x : R) (r : Z) :
  (- IZR r <= x <= IZR r)%R -> - r <= PyR.int x <= r.
Proof.
  intros [L U]. unfold PyR.int.
  destruct (Rle_dec 0 x) as [P | N].
  - destruct (real_floor_bounds x) as [Fl Fu].
    assert (R0 : (0 <= IZR r)%R) by lra. apply le_IZR in R0.
    assert (F0 : (IZR 0 < IZR (PyR.floor x + 1))%R) by (rewrite plus_IZR; lra).
    apply lt_IZR in F0.
    assert (Fr : PyR.floor x <= r) by (apply le_IZR; lra).
    lia.
  - destruct (real_floor_bounds (- x)) as [Fl Fu].
    assert (R0 : (0 <= IZR r)%R) by lra. apply le_IZR in R0.
    assert (F0 : (IZR 0 < IZR (PyR.floor (- x) + 1))%R) by (rewrite plus_IZR; lra).
    apply lt_IZR in F0.
    assert (Fr : PyR.floor (- x) <= r) by (apply le_IZR; lra).
    lia.
Qed.

(** ** The dial fits its box *)

(** X1: for valid dimensions the centre is on the diagonal, the left
    edge of the circle is exactly at the padding, the diameter differs
    from the usable width by at most one pixel and equals it when the
    usable width is even, and the result does not depend on the height
    argument. *)
Theorem adjust_dimensions_fit (p w h : Z) :
  0 <= w - 2 * p -> 0 <= h - 2 * p ->
  exists d,
    _adjust_dimensions p w h = Ok d
    /\ fst (dim_center d) = snd (dim_center d)
    /\ fst (dim_center d) - dim_radius d = p
    /\ w - 2 * p - 1 <= 2 * dim_radius d <= w - 2 * p + 1
    /\ (Z.even (w - 2 * p) = true -> 2 * dim_radius d = w - 2 * p)
    /\ fst (dim_center d) + dim_radius d <= w - p + 1
    /\ (forall h', 0 <= h' - 2 * p -> _adjust_dimensions p w h' = Ok d).
Proof.
  intros Hw Hh.
  assert (V : ~ invalid_dimensions p w h) by (unfold invalid_dimensions; lia).
  eexists. split; [apply (adjust_valid _ _ _ V) | ].
  cbn [dim_center dim_radius fst snd].
  pose proof (round_half (w - 2 * p)) as R.
  pose proof (Z.div_mod (w - 2 * p) 2 ltac:(lia)) as D.
  pose proof (Z.mod_pos_bound (w - 2 * p) 2 ltac:(lia)) as B.
  pose proof (Zmod_even (w - 2 * p)) as M.
  set (r := PyQ.round (inject_Z (w - 2 * p) / 2)) in *.
  assert (Bounds : w - 2 * p - 1 <= 2 * r <= w - 2 * p + 1
                   /\ (Z.even (w - 2 * p) = true -> 2 * r = w - 2 * p)).
  { destruct (Z.even (w - 2 * p)) eqn:Ev.
    - split; [lia | intros _; lia].
    - split; [ | discriminate].
      destruct (Z.even ((w - 2 * p) / 2)); lia. }
  destruct Bounds as [B1 B2].
  split; [reflexivity | ]. split; [lia | ]. split; [exact B1 | ].
  split; [exact B2 | ]. split; [lia | ].
  intros h' Hh'. apply adjust_valid. unfold invalid_dimensions. lia.
Qed.

Lemma adjust_dimensions_fit_witness :
  exists d,
    _adjust_dimensions 5 103 100 = Ok d
    /\ fst (dim_center d) - dim_radius d = 5
    /\ 2 * dim_radius d <= 103 - 2 * 5 + 1
    /\ _adjust_dimensions 5 103 10 = Ok d.
Proof.
  destruct (adjust_dimensions_fit 5 103 100) as [d [D [_ [L [[_ U] [_ [_ I]]]]]]];
    [lia | lia | ].
  exists d. split; [exact D | ]. split; [exact L | ]. split; [exact U | ].
  apply I. lia.
Defined.

(** ** What is drawn on the face, call by call *)

Lemma extend_bitmap_nil (s : Dial) : extend_bitmap s [] = s.
Proof.
  unfold extend_bitmap. rewrite app_nil_r.
  destruct s as [a v hf f fh w h c r b p g n nw]. destruct b. reflexivity.
Qed.

Lemma extend_bitmap_app (s : Dial) (c1 c2 : list draw_call) :
  extend_bitmap (extend_bitmap s c1) c2 = extend_bitmap s (c1 ++ c2).
Proof.
  unfold extend_bitmap, with_dial_bitmap. cbn. rewrite app_assoc. reflexivity.
Qed.

Lemma draw_on_dial_extend (s : Dial) (c : draw_call) :
  draw_on_dial s c = extend_bitmap s [c].
Proof. reflexivity. Qed.

Lemma fold_ticks_extend n st len l : forall s,
  fold_left (draw_tick n st len) l s
  = extend_bitmap s (map (tick_call (_dial_center s) (_dial_radius s) n st len) l).
Proof.
  induction l as [ | i l IH]; intros s.
  - simpl. symmetry. apply extend_bitmap_nil.
  - simpl fold_left. rewrite IH.
    change (draw_tick n st len s i)
      with (extend_bitmap s [tick_call (_dial_center s) (_dial_radius s) n st len i]).
    rewrite extend_bitmap_app. reflexivity.
Qed.

Lemma py_range_length (n : Z) : List.length (py_range n) = Z.to_nat n.
Proof. unfold py_range. rewrite length_map, length_seq. reflexivity. Qed.

Lemma py_range_In (n i : Z) : In i (py_range n) <-> 0 <= i < n.
Proof.
  unfold py_range. rewrite in_map_iff. split.
  - intros [k [E I]]. apply in_seq in I. lia.
  - intros B. exists (Z.to_nat i). split; [lia | ]. apply in_seq. lia.
Qed.

Lemma draw_ticks_extend (s : Dial) (n st len : Z) :
  draw_ticks s n st len
  = extend_bitmap s (tick_calls (_dial_center s) (_dial_radius s) n st len).
Proof.
  unfold draw_ticks, tick_calls. destruct (n <=? 1).
  - symmetry. apply extend_bitmap_nil.
  - apply fold_ticks_extend.
Qed.

(** X2: [draw_ticks] does nothing for a count of 1 or less; otherwise it
    changes the face bitmap only, applying to it exactly [tick_count]
    rotozoom calls, one per index in increasing order, each with the
    filled stroke-by-length tick bitmap, pivot (round(stroke/2), 0) and
    scale 1. *)
Theorem draw_ticks_calls (s : Dial) (n st len : Z) :
  draw_ticks s n st len
  = extend_bitmap s (tick_calls (_dial_center s) (_dial_radius s) n st len)
  /\ (n <= 1 -> draw_ticks s n st len = s)
  /\ (1 < n ->
      List.length (tick_calls (_dial_center s) (_dial_radius s) n st len)
      = Z.to_nat n)
  /\ (forall c,
        In c (tick_calls (_dial_center s) (_dial_radius s) n st len) ->
        exists i ox oy angle,
          0 <= i < n
          /\ c = Rotozoom ox oy (TickBitmap st len)
                   (PyQ.round (inject_Z st / 2)) 0 angle 1%R
          /\ angle = tick_angle n i).
Proof.
  split; [apply draw_ticks_extend | ].
  unfold draw_ticks, tick_calls.
  destruct (n <=? 1) eqn:E.
  - apply Z.leb_le in E.
    split; [reflexivity | ]. split; [lia | ]. intros c [].
  - apply Z.leb_gt in E.
    split; [lia | ].
    split; [intros _; rewrite length_map; apply py_range_length | ].
    intros c I. apply in_map_iff in I. destruct I as [i [Ec Ii]].
    apply py_range_In in Ii.
    exists i. do 3 eexists. split; [exact Ii | ].
    split; [symmetry; exact Ec | reflexivity].
Qed.

Lemma draw_outline_extend pts : forall s,
  draw_outline s pts = extend_bitmap s (segments pts).
Proof.
  induction pts as [ | p pts IH]; intros s.
  - symmetry. apply extend_bitmap_nil.
  - destruct pts as [ | q pts].
    + symmetry. apply extend_bitmap_nil.
    + change (draw_outline s (p :: q :: pts))
        with (draw_outline
                (draw_on_dial s (DrawLine (fst p) (snd p) (fst q) (snd q) 2))
                (q :: pts)).
      rewrite IH, draw_on_dial_extend, extend_bitmap_app. reflexivity.
Qed.

Lemma for_each_label_extend n l : n - 1 <> 0 -> forall s,
  for_each (draw_label n) l s
  = Ok (extend_bitmap s
          (map (fun entry => label_call s n (fst entry) (snd entry)) l)).
Proof.
  intros N. apply Z.eqb_neq in N.
  induction l as [ | e l IH]; intros s.
  - simpl. rewrite extend_bitmap_nil. reflexivity.
  - simpl for_each. unfold draw_label at 1. rewrite N. cbn [bind].
    rewrite IH. rewrite draw_on_dial_extend, extend_bitmap_app.
    f_equal.
Qed.

Lemma py_enumerate_length {A : Type} (l : list A) :
  List.length (py_enumerate l) = List.length l.
Proof.
  unfold py_enumerate. rewrite length_combine, py_range_length, Nat2Z.id.
  apply Nat.min_id.
Qed.

Lemma map_snd_combine_same {A B : Type} (a : list A) : forall (b : list B),
  List.length a = List.length b -> map snd (combine a b) = b.
Proof.
  induction a as [ | x a IH]; intros [ | y b] H; simpl in *; try discriminate.
  - reflexivity.
  - rewrite IH by lia. reflexivity.
Qed.

Lemma py_enumerate_items {A : Type} (l : list A) : map snd (py_enumerate l) = l.
Proof.
  unfold py_enumerate. apply map_snd_combine_same.
  rewrite py_range_length, Nat2Z.id. reflexivity.
Qed.

Lemma draw_labels_single (s : Dial) :
  List.length (seq_items (major_tick_labels s)) = 1%nat ->
  draw_labels s = Raise ZeroDivisionError.
Proof.
  intros L. unfold draw_labels.
  destruct (seq_items (major_tick_labels s)) as [ | t [ | t' l]];
    try discriminate.
  reflexivity.
Qed.

Lemma draw_labels_extend (s : Dial) :
  List.length (seq_items (major_tick_labels s)) <> 1%nat ->
  draw_labels s = Ok (extend_bitmap s (label_calls s)).
Proof.
  intros L. unfold draw_labels, label_calls.
  destruct (seq_items (major_tick_labels s)) as [ | t l] eqn:E.
  - simpl. rewrite extend_bitmap_nil. reflexivity.
  - apply for_each_label_extend. simpl List.length in *. lia.
Qed.

Lemma draw_labels_ok_inv (s s' : Dial) :
  draw_labels s = Ok s' ->
  List.length (seq_items (major_tick_labels s)) <> 1%nat
  /\ s' = extend_bitmap s (label_calls s).
Proof.
  intros H.
  destruct (Nat.eq_dec (List.length (seq_items (major_tick_labels s))) 1) as [E | N].
  - rewrite (draw_labels_single s E) in H. discriminate.
  - split; [exact N | ]. rewrite (draw_labels_extend s N) in H.
    inversion H. reflexivity.
Qed.

(** X3: [draw_labels] raises ZeroDivisionError exactly when there is one
    label; otherwise it changes the face bitmap only, applying one
    rotozoom call per label, in the order of the labels (none for an
    empty sequence). *)
Theorem draw_labels_outcome (s : Dial) :
  (List.length (seq_items (major_tick_labels s)) = 1%nat <->
   draw_labels s = Raise ZeroDivisionError)
  /\ (List.length (seq_items (major_tick_labels s)) <> 1%nat <->
      draw_labels s = Ok (extend_bitmap s (label_calls s)))
  /\ List.length (label_calls s) = List.length (seq_items (major_tick_labels s))
  /\ (seq_items (major_tick_labels s) = [] -> draw_labels s = Ok s).
Proof.
  pose proof (draw_labels_single s) as One.
  pose proof (draw_labels_extend s) as Other.
  split; [ | split; [ | split]].
  - split; [exact One | ].
    intros H. destruct (Nat.eq_dec (List.length (seq_items (major_tick_labels s))) 1)
      as [ | N]; [assumption | ].
    rewrite (Other N) in H. discriminate.
  - split; [exact Other | ].
    intros H L. rewrite (One L) in H. discriminate.
  - unfold label_calls. rewrite length_map. apply py_enumerate_length.
  - intros E. unfold draw_labels. rewrite E. reflexivity.
Qed.

(** ** Angles and anchors *)

(** X4: with two labels or more the first label is at -pi, the last at
    +pi, and consecutive labels are 2 pi / (count - 1) apart; so the
    first and the last label are drawn at the same anchor, straight
    below the centre at distance radius + font_height // 2. *)
Theorem label_angles_span (s : Dial) (n : Z) (t : string) :
  2 <= n ->
  label_angle n 0 = (- PI)%R
  /\ label_angle n (n - 1) = PI
  /\ (forall i, (label_angle n (i + 1) - label_angle n i)%R
                = (2 * PI / IZR (n - 1))%R)
  /\ (exists source px py scale,
        label_call s n 0 t
        = Rotozoom (fst (_dial_center s))
            (snd (_dial_center s) + (_dial_radius s + _font_height s / 2))
            source px py (- PI)%R scale
        /\ label_call s n (n - 1) t
           = Rotozoom (fst (_dial_center s))
               (snd (_dial_center s) + (_dial_radius s + _font_height s / 2))
               source px py PI scale).
Proof.
  intros N.
  assert (D : (IZR (n - 1) <> 0)%R).
  { apply not_0_IZR. lia. }
  assert (A0 : label_angle n 0 = (- PI)%R).
  { unfold label_angle. replace (0 * 360) with 0 by reflexivity. field. exact D. }
  assert (A1 : label_angle n (n - 1) = PI).
  { unfold label_angle. rewrite mult_IZR. field. exact D. }
  split; [exact A0 | ]. split; [exact A1 | ].
  split.
  { intros i. unfold label_angle. rewrite !mult_IZR, plus_IZR. field. exact D. }
  do 4 eexists. unfold label_call. rewrite A0, A1.
  rewrite sin_neg, cos_neg, sin_PI, cos_PI.
  set (c := _dial_center s). set (R := _dial_radius s + _font_height s / 2).
  replace (IZR (fst c) + IZR R * - 0)%R with (IZR (fst c)) by lra.
  replace (IZR (fst c) + IZR R * 0)%R with (IZR (fst c)) by lra.
  replace (IZR (snd c) - IZR R * -1)%R with (IZR (snd c + R))
    by (rewrite plus_IZR; lra).
  rewrite !real_round_int.
  split; reflexivity.
Qed.

Lemma label_angles_span_witness :
  label_angle 5 0 = (- PI)%R /\ label_angle 5 (5 - 1) = PI.
Proof.
  destruct (label_angles_span
              {| args := default_args; _value := 0; _dial_half := 0;
                 _tick_label_font := cell_font; _font_height := 14;
                 _width := 100; _height := 100; _dial_center := (50, 50);
                 _dial_radius := 45; dial_bitmap := new_Bitmap 100 100;
                 dial_palette := new_Palette 4; group := [];
                 _needle := {| points := []; pixel_shader := new_Palette 1;
                               polygon_x := 0; polygon_y := 0 |};
                 _needle_width := 3 |} 5 "0")
    as [A0 [A1 _]]; [lia | ].
  split; assumption.
Defined.

(** X5: the minor ticks subdivide the major intervals: with [m] minor
    ticks per major tick and [M] major ticks, the minor tick of index
    [k * m] is drawn at the anchor and angle of major tick [k], and it is
    among the [m * (M - 1) + 1] minor ticks drawn. *)
Theorem minor_ticks_hit_major (c : Z * Z) (r m M k st len : Z) :
  1 <= m -> 2 <= M -> 0 <= k < M ->
  tick_angle (m * (M - 1) + 1) (k * m) = tick_angle M k
  /\ tick_call c r (m * (M - 1) + 1) st len (k * m) = tick_call c r M st len k
  /\ In (tick_call c r M st len k)
       (tick_calls c r (m * (M - 1) + 1) st len).
Proof.
  intros Hm HM Hk.
  assert (A : tick_angle (m * (M - 1) + 1) (k * m) = tick_angle M k).
  { unfold tick_angle. f_equal.
    replace (m * (M - 1) + 1 - 1) with (m * (M - 1)) by lia.
    rewrite !mult_IZR.
    assert (Dm : (IZR m <> 0)%R) by (apply not_0_IZR; lia).
    assert (DM : (IZR (M - 1) <> 0)%R) by (apply not_0_IZR; lia).
    field. split; assumption. }
  assert (C : tick_call c r (m * (M - 1) + 1) st len (k * m)
              = tick_call c r M st len k).
  { unfold tick_call. rewrite A. reflexivity. }
  split; [exact A | ]. split; [exact C | ].
  unfold tick_calls.
  assert (G : (m * (M - 1) + 1 <=? 1) = false) by (apply Z.leb_gt; nia).
  rewrite G. apply in_map_iff. exists (k * m). split; [exact C | ].
  apply py_range_In. nia.
Qed.

Lemma minor_ticks_hit_major_witness :
  tick_angle (5 * (5 - 1) + 1) (2 * 5) = tick_angle 5 2
  /\ In (tick_call (50, 50) 45 5 1 5 2) (tick_calls (50, 50) 45 (5 * (5 - 1) + 1) 1 5).
Proof.
  destruct (minor_ticks_hit_major (50, 50) 45 5 5 2 1 5) as [A [_ I]]; try lia.
  split; assumption.
Defined.

Lemma outline_point_at (s : Dial) (i : nat) :
  (i < 361)%nat ->
  nth_error (outline_points s) i
  = Some (fst (_dial_center s)
          + PyR.int (IZR (_dial_radius s) * cos (IZR (Z.of_nat i) * PI / 180))%R,
          snd (_dial_center s)
          + PyR.int (IZR (_dial_radius s) * sin (IZR (Z.of_nat i) * PI / 180))%R).
Proof.
  intros L. unfold outline_points, py_range.
  rewrite nth_error_map, nth_error_map.
  change (Z.to_nat 361) with 361%nat.
  rewrite nth_error_seq. 
  destruct (Nat.ltb_spec i 361) as [ | G]; [ | lia].
  reflexivity.
Qed.

Lemma outline_points_bounds (s : Dial) (x y : Z) :
  0 <= _dial_radius s ->
  In (x, y) (outline_points s) ->
  fst (_dial_center s) - _dial_radius s <= x
    <= fst (_dial_center s) + _dial_radius s
  /\ snd (_dial_center s) - _dial_radius s <= y
       <= snd (_dial_center s) + _dial_radius s.
Proof.
  intros Rad I. unfold outline_points in I.
  apply in_map_iff in I. destruct I as [i [E _]]. inversion E. clear E.
  assert (B : forall t : R, (-1 <= t <= 1)%R ->
              - _dial_radius s
              <= PyR.int (IZR (_dial_radius s) * t) <= _dial_radius s).
  { intros t [Lo Hi]. apply real_int_between.
    assert (R' : (0 <= IZR (_dial_radius s))%R) by (apply IZR_le; exact Rad).
    split; nra. }
  pose proof (B _ (COS_bound (IZR i * PI / 180))) as Bc.
  pose proof (B _ (SIN_bound (IZR i * PI / 180))) as Bs.
  lia.
Qed.

(** X6: the outline is a closed polyline: 361 points that start and end
    at the point at distance radius to the right of the centre, joined
    by exactly 360 line segments of colour index 2, each from one point
    to the next; with a radius that is not negative every point is
    within the radius of the centre in each coordinate.  Drawing it
    changes the face bitmap only. *)
Theorem outline_closed_polyline (s : Dial) :
  List.length (outline_points s) = 361%nat
  /\ nth_error (outline_points s) 0
     = Some (fst (_dial_center s) + _dial_radius s, snd (_dial_center s))
  /\ nth_error (outline_points s) 360
     = Some (fst (_dial_center s) + _dial_radius s, snd (_dial_center s))
  /\ draw_outline s (outline_points s)
     = extend_bitmap s (segments (outline_points s))
  /\ List.length (segments (outline_points s)) = 360%nat
  /\ (forall i p q,
        nth_error (outline_points s) i = Some p ->
        nth_error (outline_points s) (S i) = Some q ->
        nth_error (segments (outline_points s)) i
        = Some (DrawLine (fst p) (snd p) (fst q) (snd q) 2))
  /\ (0 <= _dial_radius s ->
      forall x y, In (x, y) (outline_points s) ->
        fst (_dial_center s) - _dial_radius s <= x
          <= fst (_dial_center s) + _dial_radius s
        /\ snd (_dial_center s) - _dial_radius s <= y
             <= snd (_dial_center s) + _dial_radius s).
Proof.
  assert (Len : List.length (outline_points s) = 361%nat).
  { unfold outline_points. rewrite length_map, py_range_length. reflexivity. }
  split; [exact Len | ].
  split.
  { rewrite outline_point_at by lia. cbn [Z.of_nat].
    replace (0 * PI / 180)%R with 0%R by lra.
    rewrite cos_0, sin_0, Rmult_1_r, Rmult_0_r.
    rewrite real_int_of_integer, (real_int_of_integer 0).
    f_equal. f_equal. lia. }
  split.
  { rewrite outline_point_at by lia.
    replace (IZR (Z.of_nat 360) * PI / 180)%R with (2 * PI)%R
      by (change (Z.of_nat 360) with 360; lra).
    rewrite cos_2PI, sin_2PI, Rmult_1_r, Rmult_0_r.
    rewrite real_int_of_integer, (real_int_of_integer 0).
    f_equal. f_equal. lia. }
  split; [apply draw_outline_extend | ].
  split.
  { unfold segments. rewrite length_map, length_combine.
    destruct (outline_points s) as [ | p l]; [discriminate | ].
    cbn [tl List.length] in *. injection Len as Len. rewrite Len.
    reflexivity. }
  split.
  { intros i p q Hp Hq. unfold segments.
    rewrite nth_error_map.
    assert (C : nth_error (combine (outline_points s) (tl (outline_points s))) i
                = Some (p, q)).
    { revert Hp Hq. generalize (outline_points s) as l. clear.
      induction i as [ | i IH]; intros l Hp Hq.
      - destruct l as [ | a [ | b l]]; simpl in *; try discriminate.
        inversion Hp. inversion Hq. reflexivity.
      - destruct l as [ | a l]; [discriminate | ].
        destruct l as [ | b l]; [destruct i; discriminate | ].
        apply (IH (b :: l)); assumption. }
    rewrite C. reflexivity. }
  intros Rad x y I. apply outline_points_bounds; assumption.
Qed.

(** ** The constructed widget *)

Lemma update_needle_ok_inv (s s' : Dial) (v : Q) :
  _update_needle s v = Ok s' ->
  ~ (max_value s - min_value s == 0)%Q
  /\ s' = _draw_position s (effective_value s v / (max_value s - min_value s)).
Proof.
  intros H. split; [apply (update_needle_ok_span _ _ _ H) | ].
  destruct (update_needle_cases s v) as [[_ E] | [_ E]];
    rewrite E in H; inversion H.
  reflexivity.
Qed.

Lemma update_needle_zero_span (s : Dial) (v : Q) :
  (max_value s - min_value s == 0)%Q -> _update_needle s v = Raise ZeroDivisionError.
Proof.
  intros Z0. apply Qeq_bool_iff in Z0.
  unfold _update_needle. rewrite Z0. reflexivity.
Qed.

Lemma label_calls_ext (s s' : Dial) :
  geometry s = geometry s' -> label_calls s = label_calls s'.
Proof.
  intros G. unfold label_calls.
  assert (A : args s = args s') by (unfold geometry in G; congruence).
  change (major_tick_labels s) with (major_tick_labels (args s)).
  change (major_tick_labels s') with (major_tick_labels (args s')).
  rewrite A. apply map_ext. intros e. apply label_call_ext. exact G.
Qed.

Lemma outline_points_ext (s s' : Dial) :
  geometry s = geometry s' -> outline_points s = outline_points s'.
Proof.
  intros G. unfold geometry in G. inversion G as [[A V Hf F Fh W He C R]].
  unfold outline_points. rewrite C, R. reflexivity.
Qed.

Ltac project :=
  cbn [args _value _dial_half _tick_label_font _font_height _width _height
       _dial_center _dial_radius dial_bitmap dial_palette group _needle
       _needle_width points pixel_shader polygon_x polygon_y
       bitmap_width bitmap_height bitmap_calls
       _draw_position append _create_needle with_needle with_dial_palette
       with_dial_bitmap with_value extend_bitmap set_points geometry
       new_Bitmap app].

Lemma init_layout (font : Font) (a : DialArgs) (self : Dial) :
  Dial__init__ font a = Ok self ->
  dial_bitmap self
  = {| bitmap_width := width a;
       bitmap_height := width a;
       bitmap_calls :=
         tick_calls (_dial_center self) (_dial_radius self)
           (major_ticks a) (major_tick_stroke a) (major_tick_length a)
         ++ tick_calls (_dial_center self) (_dial_radius self)
              (minor_ticks a * (major_ticks a - 1) + 1)
              (minor_tick_stroke a) (minor_tick_length a)
         ++ label_calls self
         ++ segments (outline_points self) |}
  /\ group self = [dial_tilegrid; needle_layer]
  /\ palette_colors (dial_palette self)
     = [match background_color a with None => 0 | Some c => c end;
        tick_label_color a; tick_color a; 0]
  /\ palette_transparent (dial_palette self)
     = match background_color a with None => [0] | Some _ => [] end
  /\ palette_colors (pixel_shader (_needle self)) = [needle_color a]
  /\ polygon_x (_needle self) = 0 /\ polygon_y (_needle self) = 0
  /\ _needle_width self = needle_width a.
Proof.
  intros H.
  assert (V : ~ invalid_dimensions (padding a) (width a) (height a)).
  { intros I. destruct (init_invalid_dimensions font a I) as [e [E _]].
    rewrite E in H. discriminate. }
  revert H.
  unfold Dial__init__, _initialize_dial.
  fold (initial_value a). fold (chosen_font font a).
  destruct (_get_font_height _ _ _) as [fh | e]; [ | discriminate].
  cbn [bind].
  rewrite (adjust_valid _ _ _ V). cbn [bind].
  set (r := PyQ.round (inject_Z (width a - 2 * padding a) / 2)).
  cbn [dim_width dim_height dim_center dim_radius].
  match goal with
  | |- context [draw_ticks (draw_ticks ?s _ _ _) _ _ _] => set (s0 := s)
  end.
  rewrite (draw_ticks_extend s0), draw_ticks_extend, extend_bitmap_app.
  match goal with
  | |- context [draw_labels ?s] => set (s2 := s)
  end.
  destruct (draw_labels s2) as [s3 | e] eqn:L; [ | discriminate].
  cbn [bind].
  apply draw_labels_ok_inv in L. destruct L as [_ E3].
  rewrite draw_outline_extend.
  intros U. apply update_needle_ok_inv in U. destruct U as [_ U].
  assert (G3 : geometry s3 = geometry s0) by (rewrite E3; reflexivity).
  assert (GS : geometry self = geometry s0).
  { rewrite U. project. exact G3. }
  assert (C : _dial_center self = (r + padding a, r + padding a))
    by (unfold geometry in GS; inversion GS; reflexivity).
  assert (Rd : _dial_radius self = r)
    by (unfold geometry in GS; inversion GS; reflexivity).
  assert (A3 : args s3 = a) by (unfold geometry in G3; inversion G3; reflexivity).
  split.
  { rewrite C, Rd.
    rewrite (label_calls_ext self s2) by (rewrite GS; reflexivity).
    rewrite (outline_points_ext self
               (append (with_dial_palette s3 (make_dial_palette s3)) dial_tilegrid))
      by (rewrite GS; project; symmetry; exact G3).
    rewrite U. project. rewrite E3. project.
    unfold s2. project. unfold s0. project.
    rewrite <- !app_assoc. reflexivity. }
  split.
  { rewrite U. project. rewrite E3. unfold s2. project. reflexivity. }
  assert (P : dial_palette self = make_dial_palette s3).
  { rewrite U. project. reflexivity. }
  split.
  { rewrite P. unfold make_dial_palette.
    change (background_color s3) with (background_color (args s3)).
    change (tick_label_color s3) with (tick_label_color (args s3)).
    change (tick_color s3) with (tick_color (args s3)).
    rewrite A3. destruct (background_color a); reflexivity. }
  split.
  { rewrite P. unfold make_dial_palette.
    change (background_color s3) with (background_color (args s3)).
    rewrite A3. destruct (background_color a); reflexivity. }
  split.
  { rewrite U. project.
    change (needle_color s3) with (needle_color (args s3)).
    rewrite A3. reflexivity. }
  split; [rewrite U; reflexivity | ].
  split; [rewrite U; reflexivity | ].
  rewrite U. project.
  change (needle_width s3) with (needle_width (args s3)).
  rewrite A3. reflexivity.
Qed.

Lemma tick_calls_length (c : Z * Z) (r n st len : Z) :
  List.length (tick_calls c r n st len) = ticks_drawn n.
Proof.
  unfold tick_calls, ticks_drawn. destruct (n <=? 1); [reflexivity | ].
  rewrite length_map. apply py_range_length.
Qed.

Lemma label_calls_length (s : Dial) :
  List.length (label_calls s) = List.length (seq_items (major_tick_labels s)).
Proof.
  unfold label_calls. rewrite length_map. apply py_enumerate_length.
Qed.

Lemma outline_segments_length (s : Dial) :
  List.length (segments (outline_points s)) = 360%nat.
Proof.
  assert (Len : List.length (outline_points s) = 361%nat).
  { unfold outline_points. rewrite length_map, py_range_length. reflexivity. }
  unfold segments. rewrite length_map, length_combine.
  destruct (outline_points s) as [ | p l]; [discriminate | ].
  cbn [tl List.length] in *. injection Len as Len. rewrite Len.
  reflexivity.
Qed.

(** X7: the face of a constructed widget.  The bitmap is square, of side
    the requested width; the calls applied to it are, in this order, the
    major ticks, the minor ticks, the labels and the 360 outline
    segments, and nothing else.  The face layer is below the needle
    layer.  Palette slot 0 is the background colour (black and marked
    transparent when none is given), slot 1 the label colour, slot 2 the
    tick colour.  The needle has a palette of its own, holding the
    needle colour, sits at (0, 0), and has the requested width. *)
Theorem constructed_face (font : Font) (a : DialArgs) (self : Dial) :
  Dial__init__ font a = Ok self ->
  dial_bitmap self
  = {| bitmap_width := width a;
       bitmap_height := width a;
       bitmap_calls :=
         tick_calls (_dial_center self) (_dial_radius self)
           (major_ticks a) (major_tick_stroke a) (major_tick_length a)
         ++ tick_calls (_dial_center self) (_dial_radius self)
              (minor_ticks a * (major_ticks a - 1) + 1)
              (minor_tick_stroke a) (minor_tick_length a)
         ++ label_calls self
         ++ segments (outline_points self) |}
  /\ group self = [dial_tilegrid; needle_layer]
  /\ palette_colors (dial_palette self)
     = [match background_color a with None => 0 | Some c => c end;
        tick_label_color a; tick_color a; 0]
  /\ palette_transparent (dial_palette self)
     = match background_color a with None => [0] | Some _ => [] end
  /\ palette_colors (pixel_shader (_needle self)) = [needle_color a]
  /\ polygon_x (_needle self) = 0 /\ polygon_y (_needle self) = 0
  /\ _needle_width self = needle_width a
  /\ List.length (bitmap_calls (dial_bitmap self))
     = (ticks_drawn (major_ticks a)
        + ticks_drawn (minor_ticks a * (major_ticks a - 1) + 1)
        + List.length (seq_items (major_tick_labels a)) + 360)%nat.
Proof.
  intros H.
  destruct (init_layout font a self H) as [B [G [Pc [Pt [Nc [Nx [Ny Nw]]]]]]].
  split; [exact B | ]. split; [exact G | ]. split; [exact Pc | ].
  split; [exact Pt | ]. split; [exact Nc | ]. split; [exact Nx | ].
  split; [exact Ny | ]. split; [exact Nw | ].
  destruct (init_well_formed _ _ _ H) as [_ A].
  rewrite B. cbn [bitmap_calls].
  rewrite !length_app, !tick_calls_length, label_calls_length,
    outline_segments_length.
  change (major_tick_labels self) with (major_tick_labels (args self)).
  rewrite A. lia.
Qed.

Lemma constructed_face_witness :
  exists self,
    Dial__init__ cell_font default_args = Ok self
    /\ group self = [dial_tilegrid; needle_layer]
    /\ bitmap_width (dial_bitmap self) = 100
    /\ bitmap_height (dial_bitmap self) = 100
    /\ List.length (bitmap_calls (dial_bitmap self)) = 391%nat.
Proof.
  destruct default_dial_exists as [self H].
  exists self. split; [exact H | ].
  destruct (constructed_face cell_font default_args self H)
    as [B [G [_ [_ [_ [_ [_ [_ N]]]]]]]].
  split; [exact G | ].
  split; [rewrite B; reflexivity | ].
  split; [rewrite B; reflexivity | ].
  rewrite N. reflexivity.
Defined.

Lemma init_late_outcome (font : Font) (a : DialArgs) :
  succeeds (_get_font_height (major_tick_labels a)
              (Some (chosen_font font a)) (tick_label_scale a)) = true ->
  ~ invalid_dimensions (padding a) (width a) (height a) ->
  (List.length (seq_items (major_tick_labels a)) = 1%nat ->
   Dial__init__ font a = Raise ZeroDivisionError)
  /\ ((max_value a - min_value a == 0)%Q ->
      Dial__init__ font a = Raise ZeroDivisionError).
Proof.
  intros F V.
  unfold Dial__init__, _initialize_dial.
  fold (initial_value a). fold (chosen_font font a).
  destruct (_get_font_height _ _ _) as [fh | e]; [ | discriminate].
  cbn [bind].
  rewrite (adjust_valid _ _ _ V). cbn [bind].
  cbn [dim_width dim_height dim_center dim_radius].
  match goal with
  | |- context [draw_ticks (draw_ticks ?s _ _ _) _ _ _] => set (s0 := s)
  end.
  rewrite (draw_ticks_extend s0), draw_ticks_extend, extend_bitmap_app.
  match goal with
  | |- context [draw_labels ?s] => set (s2 := s)
  end.
  assert (A2 : args s2 = a) by reflexivity.
  assert (One : List.length (seq_items (major_tick_labels a)) = 1%nat ->
                draw_labels s2 = Raise ZeroDivisionError).
  { intros L. apply draw_labels_single.
    change (major_tick_labels s2) with (major_tick_labels (args s2)).
    rewrite A2. exact L. }
  split.
  - intros L. rewrite (One L). reflexivity.
  - intros Z0.
    destruct (draw_labels s2) as [s3 | e] eqn:L.
    + cbn [bind].
      apply draw_labels_ok_inv in L. destruct L as [_ E3].
      assert (A3 : args s3 = a) by (rewrite E3; reflexivity).
      apply update_needle_zero_span.
      rewrite draw_outline_extend. project. rewrite A3. exact Z0.
    + cbn [bind]. f_equal.
      apply (for_each_label_raises _ _ _ _ L).
Qed.

(** X8: which constructions fail, and how.  The checks run in this
    order: a font without either accessor (with labels other than the
    empty list) gives [UnboundLocalError]; then invalid dimensions give
    [ValueError]; then a single label, or max_value equal to min_value,
    gives [ZeroDivisionError].  The constructor returns a widget exactly
    when none of the four holds. *)
Theorem construction_outcome (font : Font) (a : DialArgs) :
  (succeeds (_get_font_height (major_tick_labels a)
               (Some (chosen_font font a)) (tick_label_scale a)) = false ->
   Dial__init__ font a = Raise (UnboundLocalError "font_height"))
  /\ (succeeds (_get_font_height (major_tick_labels a)
                  (Some (chosen_font font a)) (tick_label_scale a)) = true ->
      (invalid_dimensions (padding a) (width a) (height a) ->
       Dial__init__ font a = Raise (ValueError zero_box_msg))
      /\ (~ invalid_dimensions (padding a) (width a) (height a) ->
          (List.length (seq_items (major_tick_labels a)) = 1%nat
           \/ (max_value a - min_value a == 0)%Q) ->
          Dial__init__ font a = Raise ZeroDivisionError))
  /\ (succeeds (Dial__init__ font a) = true <->
      succeeds (_get_font_height (major_tick_labels a)
                  (Some (chosen_font font a)) (tick_label_scale a)) = true
      /\ ~ invalid_dimensions (padding a) (width a) (height a)
      /\ List.length (seq_items (major_tick_labels a)) <> 1%nat
      /\ ~ (max_value a - min_value a == 0)%Q).
Proof.
  assert (P1 : succeeds (_get_font_height (major_tick_labels a)
               (Some (chosen_font font a)) (tick_label_scale a)) = false ->
               Dial__init__ font a = Raise (UnboundLocalError "font_height")).
  { unfold Dial__init__, _initialize_dial.
    fold (initial_value a). fold (chosen_font font a).
    destruct (_get_font_height _ _ _) as [fh | e] eqn:F; [discriminate | ].
    intros _. cbn [bind]. f_equal. apply (get_font_height_raises _ _ _ _ F). }
  assert (P2 : succeeds (_get_font_height (major_tick_labels a)
                  (Some (chosen_font font a)) (tick_label_scale a)) = true ->
      (invalid_dimensions (padding a) (width a) (height a) ->
       Dial__init__ font a = Raise (ValueError zero_box_msg))
      /\ (~ invalid_dimensions (padding a) (width a) (height a) ->
          (List.length (seq_items (major_tick_labels a)) = 1%nat
           \/ (max_value a - min_value a == 0)%Q) ->
          Dial__init__ font a = Raise ZeroDivisionError)).
  { intros F. split.
    - intros I. destruct (init_invalid_dimensions font a I) as [e [E Ev]].
      rewrite E. f_equal. apply Ev. exact F.
    - intros V [L | Z0]; destruct (init_late_outcome font a F V) as [A B];
        [apply A | apply B]; assumption. }
  split; [exact P1 | ]. split; [exact P2 | ].
  split.
  - intros S.
    destruct (succeeds (_get_font_height (major_tick_labels a)
                (Some (chosen_font font a)) (tick_label_scale a))) eqn:F.
    2:{ rewrite (P1 eq_refl) in S. discriminate. }
    destruct (P2 eq_refl) as [PI PL].
    split; [reflexivity | ].
    assert (V : ~ invalid_dimensions (padding a) (width a) (height a)).
    { intros I. rewrite (PI I) in S. discriminate. }
    split; [exact V | ].
    split.
    + intros L. rewrite (PL V (or_introl L)) in S. discriminate.
    + intros Z0. rewrite (PL V (or_intror Z0)) in S. discriminate.
  - intros [F [V [L Z0]]].
    destruct (init_succeeds font a F V L Z0) as [self H]. rewrite H. reflexivity.
Qed.

(** ** More on the needle *)

Lemma needle_vertices_static (s s' : Dial) (p : Q) :
  static_part s = static_part s' -> needle_vertices s p = needle_vertices s' p.
Proof.
  intros St. unfold static_part in St.
  inversion St as [[A Hf F Fh W He C R B P G Ps Px Py Nw]].
  unfold needle_vertices.
  change (needle_pad s) with (needle_pad (args s)).
  change (needle_pad s') with (needle_pad (args s')).
  rewrite A, Hf, C, R, Nw. reflexivity.
Qed.

Lemma position_for_static (s s' : Dial) (v : Q) :
  args s = args s' -> position_for s v = position_for s' v.
Proof.
  intros A. unfold position_for, effective_value. cbn [args with_value _value].
  change (limit_rotation s) with (limit_rotation (args s)).
  change (max_value s) with (max_value (args s)).
  change (min_value s) with (min_value (args s)).
  rewrite A. reflexivity.
Qed.

Lemma assign_all_app (l1 l2 : list Q) : forall s,
  assign_all s (l1 ++ l2) = (s' <- assign_all s l1 ;; assign_all s' l2).
Proof.
  induction l1 as [ | v l1 IH]; intros s; simpl; [reflexivity | ].
  destruct (value_setter s v) as [s1 | e]; cbn [bind]; [apply IH | reflexivity].
Qed.

(** X9: only the last assignment counts.  On a constructed widget, after
    any sequence of assignments ending with [v], the needle, the stored
    value (as a number) and everything else are what a single
    assignment of [v] to the fresh widget gives. *)
Theorem last_assignment_wins (font : Font) (a : DialArgs) (s0 : Dial)
  (vs : list Q) (v : Q) :
  Dial__init__ font a = Ok s0 ->
  exists s s1,
    assign_all s0 (vs ++ [v]) = Ok s
    /\ value_setter s0 v = Ok s1
    /\ points (_needle s) = points (_needle s1)
    /\ (value_getter s == value_getter s1)%Q
    /\ static_part s = static_part s1.
Proof.
  intros H.
  destruct (init_well_formed _ _ _ H) as [W0 _].
  destruct (assign_all_spec vs s0 W0) as [sm [Em [Stm Wm]]].
  destruct (setter_spec sm v Wm) as [s [E [P [St [V _]]]]].
  destruct (setter_spec s0 v W0) as [s1 [E1 [P1 [St1 [V1 _]]]]].
  exists s, s1.
  split.
  { rewrite assign_all_app, Em. cbn [bind assign_all]. rewrite E. reflexivity. }
  split; [exact E1 | ].
  split.
  { rewrite P, P1. rewrite (needle_vertices_static sm s0) by exact Stm.
    rewrite (position_for_static sm s0); [reflexivity | ].
    unfold static_part in Stm. congruence. }
  split.
  { unfold value_getter. rewrite V, V1. reflexivity. }
  congruence.
Qed.

Lemma last_assignment_wins_witness :
  exists s0 s s1,
    Dial__init__ cell_font default_args = Ok s0
    /\ assign_all s0 ([30%Q; 150%Q; (-10)%Q] ++ [42%Q]) = Ok s
    /\ value_setter s0 42 = Ok s1
    /\ points (_needle s) = points (_needle s1).
Proof.
  destruct default_dial_exists as [s0 H].
  destruct (last_assignment_wins cell_font default_args s0
              [30%Q; 150%Q; (-10)%Q] 42%Q H) as [s [s1 [A [E [P _]]]]].
  exists s0, s, s1. split; [exact H | ]. split; [exact A | ].
  split; [exact E | exact P].
Defined.

(** X10: an assignment that succeeded can be repeated at no cost: assigning
    the same number again, or any number equal to it, returns the widget
    unchanged. *)
Theorem assign_twice (s s' : Dial) (v v' : Q) :
  value_setter s v = Ok s' ->
  (v' == v)%Q ->
  value_setter s' v' = Ok s'
  /\ assign_all s [v; v'] = Ok s'.
Proof.
  intros H E.
  assert (V : (v == _value s')%Q).
  { unfold value_setter in H.
    destruct (Qeq_bool v (_value s)) eqn:B; cbn [negb] in H.
    - inversion H. subst s'. apply Qeq_bool_iff. exact B.
    - destruct (update_needle_cases (with_value s v) (_value (with_value s v)))
        as [[_ U] | [_ U]]; rewrite U in H; inversion H.
      reflexivity. }
  assert (R : value_setter s' v' = Ok s').
  { apply setter_same. rewrite E. exact V. }
  split; [exact R | ].
  simpl. rewrite H. cbn [bind]. rewrite R. reflexivity.
Qed.

Lemma assign_twice_witness :
  exists s0 s',
    Dial__init__ cell_font default_args = Ok s0
    /\ value_setter s0 30 = Ok s'
    /\ value_setter s' (60 # 2) = Ok s'.
Proof.
  destruct default_dial_exists as [s0 H].
  destruct (init_well_formed _ _ _ H) as [W0 _].
  destruct (setter_spec s0 30%Q W0) as [s' [E _]].
  exists s0, s'. split; [exact H | ]. split; [exact E | ].
  apply (assign_twice s0 s' 30%Q (60 # 2)%Q E). reflexivity.
Defined.

Lemma init_needle_shape (font : Font) (a : DialArgs) (self : Dial) :
  Dial__init__ font a = Ok self ->
  _needle_width self = needle_width a
  /\ _dial_half self = (if needle_full a then 1 else 0).
Proof.
  intros H. split.
  - revert H.
    unfold Dial__init__, _initialize_dial.
    destruct (_get_font_height _ _ _) as [fh | e]; [ | discriminate].
    cbn [bind].
    destruct (_adjust_dimensions _ _ _) as [d | e]; [ | discriminate].
    cbn [bind].
    match goal with
    | |- context [draw_labels ?s] => set (s2 := s)
    end.
    destruct (draw_labels s2) as [s3 | e] eqn:L; [ | discriminate].
    cbn [bind].
    apply geometry_draw_labels in L.
    rewrite draw_outline_extend.
    intros U. apply update_needle_ok_inv in U. destruct U as [_ U].
    rewrite U. project.
    change (needle_width s3) with (needle_width (args s3)).
    assert (A3 : args s3 = args s2) by (unfold geometry in L; congruence).
    rewrite A3. unfold s2. rewrite !draw_ticks_extend. reflexivity.
  - destruct (init_inversion _ _ _ H) as [fh [d [_ [_ [G _]]]]].
    unfold geometry in G. inversion G. reflexivity.
Qed.

Lemma needle_vertices_bounds (s : Dial) (p : Q) :
  needle_pad s <= _dial_radius s ->
  0 <= _needle_width s ->
  _dial_half s = 0 \/ _dial_half s = 1 ->
  let B := _dial_radius s - needle_pad s + (_needle_width s + 1) / 2 in
  Forall (fun xy =>
            fst (_dial_center s) - B <= fst xy <= fst (_dial_center s) + B
            /\ snd (_dial_center s) - B <= snd xy <= snd (_dial_center s) + B)
         (needle_vertices s p).
Proof.
  intros Rp Wn Hh B.
  unfold needle_vertices.
  set (t := angle_offset p).
  pose proof (SIN_bound t) as [S1 S2]. pose proof (COS_bound t) as [C1 C2].
  set (S := sin t) in *. set (C := cos t) in *.
  assert (Re : (0 <= IZR (_dial_radius s - needle_pad s))%R)
    by (apply IZR_le; lia).
  set (reach := IZR (_dial_radius s - needle_pad s)) in *.
  assert (Wd : (0 <= IZR (_needle_width s) / 2)%R).
  { assert (W0 : (0 <= IZR (_needle_width s))%R) by (apply IZR_le; lia). lra. }
  set (hw := (IZR (_needle_width s) / 2)%R) in *.
  assert (K : (hw <= IZR ((_needle_width s + 1) / 2))%R).
  { assert (Z2 : _needle_width s <= 2 * ((_needle_width s + 1) / 2)).
    { pose proof (Z.div_mod (_needle_width s + 1) 2 ltac:(lia)).
      pose proof (Z.mod_pos_bound (_needle_width s + 1) 2 ltac:(lia)). lia. }
    apply IZR_le in Z2. rewrite mult_IZR in Z2. unfold hw. lra. }
  assert (Bv : (reach + hw <= IZR B)%R).
  { unfold B. rewrite plus_IZR. fold reach. lra. }
  assert (rS : (- reach <= reach * S <= reach)%R) by (split; nra).
  assert (rC : (- reach <= reach * C <= reach)%R) by (split; nra).
  assert (wS : (- hw <= hw * S <= hw)%R) by (split; nra).
  assert (wC : (- hw <= hw * C <= hw)%R) by (split; nra).
  set (cx := fst (_dial_center s)). set (cy := snd (_dial_center s)).
  assert (Hf : IZR (_dial_half s) = 0%R \/ IZR (_dial_half s) = 1%R).
  { destruct Hh as [E | E]; rewrite E; [left | right]; reflexivity. }
  set (h := IZR (_dial_half s)) in *.
  assert (Box : forall e : R, (- (reach + hw) <= e <= reach + hw)%R ->
                forall c : Z, c - B <= PyR.round (IZR c + e) <= c + B).
  { intros e He c. apply real_round_between.
    rewrite minus_IZR, plus_IZR. lra. }
  repeat (apply Forall_cons; [cbn [fst snd]; split | ]); [ .. | apply Forall_nil].
  all: match goal with
       | |- _ <= PyR.round ?e <= _ =>
           match e with
           | (IZR ?c - ?u - ?v)%R =>
               replace e with (IZR c + (- u - v))%R by ring
           | (IZR ?c + ?u - ?v)%R =>
               replace e with (IZR c + (u - v))%R by ring
           | (IZR ?c - ?u + ?v)%R =>
               replace e with (IZR c + (- u + v))%R by ring
           | (IZR ?c + ?u + ?v)%R =>
               replace e with (IZR c + (u + v))%R by ring
           end
       end.
  all: apply Box.
  all: destruct Hf as [E | E]; rewrite ?E; lra.
Qed.

(** X11: the needle stays near the dial.  On a constructed widget whose
    needle_pad does not exceed the radius and whose needle_width is not
    negative, after any assignments every vertex of the needle is within
    radius - needle_pad + ceil(needle_width / 2) of the centre in each
    coordinate, whatever the value and whether rotation is limited or
    not. *)
Theorem needle_within_reach (font : Font) (a : DialArgs) (s0 s : Dial)
  (vs : list Q) :
  Dial__init__ font a = Ok s0 ->
  assign_all s0 vs = Ok s ->
  needle_pad a <= _dial_radius s0 ->
  0 <= needle_width a ->
  let B := _dial_radius s0 - needle_pad a + (needle_width a + 1) / 2 in
  List.length (points (_needle s)) = 4%nat
  /\ Forall (fun xy =>
               fst (_dial_center s0) - B <= fst xy <= fst (_dial_center s0) + B
               /\ snd (_dial_center s0) - B <= snd xy <= snd (_dial_center s0) + B)
            (points (_needle s)).
Proof.
  intros H A Rp Wn B.
  destruct (assigned_well_formed _ _ _ _ _ H A) as [[_ Sync] [Ar St]].
  destruct (init_well_formed _ _ _ H) as [_ A0].
  destruct (init_needle_shape _ _ _ H) as [Nw Hf].
  rewrite Sync. split; [apply needle_vertices_length | ].
  rewrite (needle_vertices_static s s0) by exact St.
  assert (P0 : needle_pad s0 = needle_pad a).
  { change (needle_pad s0) with (needle_pad (args s0)). rewrite A0. reflexivity. }
  pose proof (needle_vertices_bounds s0
                (effective_value s (_value s) / (max_value s - min_value s))) as Bd.
  rewrite P0, Nw in Bd. apply Bd; try assumption.
  rewrite Hf. destruct (needle_full a); [right | left]; reflexivity.
Qed.

Lemma needle_within_reach_witness :
  exists s0 s,
    Dial__init__ cell_font default_args = Ok s0
    /\ assign_all s0 [30%Q; 150%Q] = Ok s
    /\ Forall (fun xy => 50 - 37 <= fst xy <= 50 + 37 /\ 50 - 37 <= snd xy <= 50 + 37)
         (points (_needle s)).
Proof.
  destruct (default_dial_assigned [30%Q; 150%Q]) as [s0 [s [H A]]].
  exists s0, s. split; [exact H | ]. split; [exact A | ].
  assert (D : _adjust_dimensions (padding default_args) (width default_args)
                (height default_args)
              = Ok {| dim_width := 100; dim_height := 100;
                      dim_center := (50, 50); dim_radius := 45 |})
    by (vm_compute; reflexivity).
  destruct (init_dimensions _ _ _ _ H D) as [R [C _]].
  cbn [dim_radius dim_center] in R, C.
  pose proof (needle_within_reach cell_font default_args s0 s _ H A) as N.
  rewrite R, C in N. apply N.
  - cbn. lia.
  - cbn. lia.
Defined.

(** ** Anchors of the face *)

Lemma round_offset_between (c r : Z) (e : R) :
  (- IZR r <= e <= IZR r)%R -> c - r <= PyR.round (IZR c + e) <= c + r.
Proof.
  intros He. apply real_round_between. rewrite minus_IZR, plus_IZR. lra.
Qed.

Lemma anchor_within_weaken (c : Z * Z) (r r' : Z) (call : draw_call) :
  r <= r' -> anchor_within c r call -> anchor_within c r' call.
Proof.
  intros L. destruct call; unfold anchor_within; cbn; lia.
Qed.

Lemma tick_call_anchor (c : Z * Z) (r n st len i : Z) :
  0 <= r -> anchor_within c r (tick_call c r n st len i).
Proof.
  intros R0. unfold tick_call, anchor_within. cbn.
  assert (R' : (0 <= IZR r)%R) by (apply IZR_le; exact R0).
  pose proof (SIN_bound (tick_angle n i)) as [S1 S2].
  pose proof (COS_bound (tick_angle n i)) as [C1 C2].
  split.
  - apply round_offset_between. split; nra.
  - replace (IZR (snd c) - IZR r * cos (tick_angle n i))%R
      with (IZR (snd c) + - (IZR r * cos (tick_angle n i)))%R by ring.
    apply round_offset_between. split; nra.
Qed.

Lemma label_call_anchor (s : Dial) (n i : Z) (t : string) :
  0 <= _dial_radius s + _font_height s / 2 ->
  anchor_within (_dial_center s) (_dial_radius s + _font_height s / 2)
    (label_call s n i t).
Proof.
  intros R0. unfold label_call, anchor_within. cbn.
  set (r := _dial_radius s + _font_height s / 2) in *.
  assert (R' : (0 <= IZR r)%R) by (apply IZR_le; exact R0).
  pose proof (SIN_bound (label_angle n i)) as [S1 S2].
  pose proof (COS_bound (label_angle n i)) as [C1 C2].
  split.
  - apply round_offset_between. split; nra.
  - replace (IZR (snd (_dial_center s)) - IZR r * cos (label_angle n i))%R
      with (IZR (snd (_dial_center s)) + - (IZR r * cos (label_angle n i)))%R
      by ring.
    apply round_offset_between. split; nra.
Qed.

Lemma segments_anchor (s : Dial) (r : Z) :
  0 <= _dial_radius s -> _dial_radius s <= r ->
  Forall (anchor_within (_dial_center s) r) (segments (outline_points s)).
Proof.
  intros R0 L. apply Forall_forall. intros call I.
  unfold segments in I. apply in_map_iff in I.
  destruct I as [[[x1 y1] [x2 y2]] [E I]]. subst call.
  pose proof (in_combine_l _ _ _ _ I) as I1.
  pose proof (in_combine_r _ _ _ _ I) as I2.
  assert (I2' : In (x2, y2) (outline_points s)).
  { destruct (outline_points s) as [ | p l]; [contradiction | right; exact I2]. }
  pose proof (outline_points_bounds s x1 y1 R0 I1).
  pose proof (outline_points_bounds s x2 y2 R0 I2').
  unfold anchor_within. cbn. lia.
Qed.

(** X12: everything drawn on the face of a constructed widget is anchored
    near the dial: with a font height that is not negative, every tick
    and label is composited at a point, and every outline segment runs
    between points, within radius + font_height // 2 of the centre in
    each coordinate; in bitmap coordinates that is between
    padding - font_height // 2 and width - padding + 1 + font_height // 2. *)
Theorem face_within_reach (font : Font) (a : DialArgs) (self : Dial) :
  Dial__init__ font a = Ok self ->
  0 <= _font_height self ->
  Forall (anchor_within (_dial_center self)
            (_dial_radius self + _font_height self / 2))
         (bitmap_calls (dial_bitmap self))
  /\ fst (_dial_center self) = snd (_dial_center self)
  /\ padding a - _font_height self / 2
     <= fst (_dial_center self) - (_dial_radius self + _font_height self / 2)
  /\ fst (_dial_center self) + (_dial_radius self + _font_height self / 2)
     <= width a - padding a + 1 + _font_height self / 2.
Proof.
  intros H Fh.
  destruct (init_layout font a self H) as [B _].
  assert (V : ~ invalid_dimensions (padding a) (width a) (height a)).
  { intros I. destruct (init_invalid_dimensions font a I) as [e [E _]].
    rewrite E in H. discriminate. }
  destruct (init_dimensions _ _ _ _ H (adjust_valid _ _ _ V)) as [Rd [C _]].
  cbn [dim_radius dim_center] in Rd, C.
  pose proof (round_half (width a - 2 * padding a)) as RH.
  pose proof (Z.div_mod (width a - 2 * padding a) 2 ltac:(lia)) as Dm.
  pose proof (Z.mod_pos_bound (width a - 2 * padding a) 2 ltac:(lia)) as Mb.
  pose proof (Zmod_even (width a - 2 * padding a)) as Me.
  assert (W0 : 0 <= width a - 2 * padding a).
  { unfold invalid_dimensions in V. lia. }
  assert (R0 : 0 <= _dial_radius self).
  { rewrite Rd. apply round_half_nonneg. exact W0. }
  assert (F2 : 0 <= _font_height self / 2) by (apply Z.div_pos; lia).
  split.
  - rewrite B. cbn [bitmap_calls].
    repeat (apply Forall_app; split).
    + unfold tick_calls. destruct (major_ticks a <=? 1); [constructor | ].
      apply Forall_forall. intros call I. apply in_map_iff in I.
      destruct I as [i [E _]]. subst call.
      apply (anchor_within_weaken _ (_dial_radius self)); [lia | ].
      apply tick_call_anchor. exact R0.
    + unfold tick_calls.
      destruct (minor_ticks a * (major_ticks a - 1) + 1 <=? 1); [constructor | ].
      apply Forall_forall. intros call I. apply in_map_iff in I.
      destruct I as [i [E _]]. subst call.
      apply (anchor_within_weaken _ (_dial_radius self)); [lia | ].
      apply tick_call_anchor. exact R0.
    + unfold label_calls. apply Forall_forall. intros call I.
      apply in_map_iff in I. destruct I as [e [E _]]. subst call.
      apply label_call_anchor. lia.
    + apply segments_anchor; lia.
  - rewrite C, Rd. cbn [fst snd].
    set (r := PyQ.round (inject_Z (width a - 2 * padding a) / 2)) in *.
    split; [reflexivity | ].
    split; [lia | ].
    destruct (Z.even (width a - 2 * padding a));
      [ | destruct (Z.even ((width a - 2 * padding a) / 2))]; lia.
Qed.

Lemma face_within_reach_witness :
  exists self,
    Dial__init__ cell_font default_args = Ok self
    /\ Forall (anchor_within (_dial_center self)
                 (_dial_radius self + _font_height self / 2))
         (bitmap_calls (dial_bitmap self)).
Proof.
  destruct default_dial_exists as [self H].
  exists self. split; [exact H | ].
  destruct (init_inversion _ _ _ H) as [fh [d [F [_ [G _]]]]].
  assert (Fh : _font_height self = fh) by (unfold geometry in G; congruence).
  assert (F14 : fh = 14).
  { vm_compute in F. inversion F. reflexivity. }
  apply (face_within_reach cell_font default_args self H).
  rewrite Fh, F14. lia.
Defined.

(** ** Font height *)

Lemma int_comp (a b : Q) : (a == b)%Q -> PyQ.int a = PyQ.int b.
Proof.
  intros E. unfold PyQ.int.
  assert (L : Qle_bool 0 a = Qle_bool 0 b).
  { destruct (Qle_bool 0 a) eqn:La, (Qle_bool 0 b) eqn:Lb; try reflexivity.
    - apply Qle_bool_iff in La. rewrite E in La. apply Qle_bool_iff in La. congruence.
    - apply Qle_bool_iff in Lb. rewrite <- E in Lb. apply Qle_bool_iff in Lb.
      congruence. }
  rewrite L, (Qfloor_comp _ _ E), (Qceiling_comp _ _ E). reflexivity.
Qed.

Lemma int_inject_Z (n : Z) : PyQ.int (inject_Z n) = n.
Proof.
  unfold PyQ.int. rewrite Qfloor_Z, Qceiling_Z. destruct (Qle_bool _ _); reflexivity.
Qed.

Lemma int_nonneg (q : Q) : (0 <= q)%Q -> 0 <= PyQ.int q.
Proof.
  intros H. unfold PyQ.int. apply Qle_bool_iff in H as B. rewrite B.
  change 0 with (Qfloor 0). apply Qfloor_resp_le. exact H.
Qed.

(** X13: the font height.  The lookup fails exactly when the labels are
    anything but the empty list (an empty tuple included) and the font
    has neither accessor.  The empty list, whatever the font, gives 0.
    A bounding box is preferred to an ascent.  For a whole-number scale
    [k] a bounding box of height [h] gives [k * h], while an ascent [a]
    gives [(k + 1) * a].  A scale and metrics that are not negative give
    a height that is not negative. *)
Theorem font_height_outcome (labels : py_seq) (f : Font) (scale : Q) :
  (succeeds (_get_font_height labels (Some f) scale) = false <->
   labels <> PyList [] /\ get_bounding_box f = None /\ ascent f = None)
  /\ _get_font_height (PyList []) (Some f) scale = Ok 0
  /\ (forall k w h,
        labels <> PyList [] -> (scale == inject_Z k)%Q ->
        get_bounding_box f = Some (w, h) ->
        _get_font_height labels (Some f) scale = Ok (k * h))
  /\ (forall k asc,
        labels <> PyList [] -> (scale == inject_Z k)%Q ->
        get_bounding_box f = None -> ascent f = Some asc ->
        _get_font_height labels (Some f) scale = Ok ((k + 1) * asc))
  /\ (forall n,
        _get_font_height labels (Some f) scale = Ok n ->
        (0 <= scale)%Q ->
        (forall w h, get_bounding_box f = Some (w, h) -> 0 <= h) ->
        (forall asc, ascent f = Some asc -> 0 <= asc) ->
        0 <= n).
Proof.
  assert (Em : eq_empty_list labels = true <-> labels = PyList []).
  { destruct labels as [l | [ | t l]]; cbn; split; intros H;
      try discriminate; reflexivity. }
  assert (Ne : labels <> PyList [] -> eq_empty_list labels = false).
  { intros N. destruct (eq_empty_list labels); [ | reflexivity].
    exfalso. apply N. apply Em. reflexivity. }
  split.
  { unfold _get_font_height. split.
    - intros S. destruct (eq_empty_list labels); [discriminate | ].
      split.
      + intros L. apply Em in L. discriminate.
      + destruct (get_bounding_box f); [discriminate | ].
        destruct (ascent f); [discriminate | ]. split; reflexivity.
    - intros [N [B A]]. rewrite (Ne N), B, A. reflexivity. }
  split; [reflexivity | ].
  split.
  { intros k w h N S B. unfold _get_font_height. rewrite (Ne N), B.
    cbn [snd]. f_equal. rewrite <- (int_inject_Z (k * h)). apply int_comp.
    rewrite S, inject_Z_mult. reflexivity. }
  split.
  { intros k asc N S B A. unfold _get_font_height. rewrite (Ne N), B, A.
    f_equal. rewrite <- (int_inject_Z ((k + 1) * asc)). apply int_comp.
    rewrite S, inject_Z_mult, inject_Z_plus. ring. }
  intros n H S Hb Ha. unfold _get_font_height in H.
  destruct (eq_empty_list labels); [inversion H; lia | ].
  destruct (get_bounding_box f) as [[w h] | ] eqn:B.
  - inversion H. apply int_nonneg. cbn [snd].
    apply Qmult_le_0_compat; [exact S | ].
    change (inject_Z 0 <= inject_Z h)%Q. rewrite <- Zle_Qle.
    apply (Hb w h). reflexivity.
  - destruct (ascent f) as [asc | ] eqn:A; [ | discriminate].
    inversion H. apply int_nonneg.
    assert (A0 : (inject_Z 0 <= inject_Z asc)%Q)
      by (rewrite <- Zle_Qle; apply Ha; reflexivity).
    pose proof (Qmult_le_0_compat _ _ S A0) as M.
    apply (Qplus_le_compat 0 _ 0 _ M A0).
Qed.

(** ** The constrained value *)

(** X14: with limit_rotation set, [_update_needle] ignores its parameter
    and works on the stored value, brought into the range: for
    min_value <= max_value the result lies in the range and is the
    stored value itself when that is in the range, so the position
    stays within one turn (positions at most 1 apart); for
    max_value < min_value the result is always min_value.  Without
    limit_rotation the parameter is used as it is. *)
Theorem constrained_value (s : Dial) (v v' : Q) :
  (limit_rotation s = true ->
   effective_value s v = effective_value s v'
   /\ ((min_value s <= max_value s)%Q ->
       (min_value s <= effective_value s v)%Q
       /\ (effective_value s v <= max_value s)%Q
       /\ ((min_value s <= _value s)%Q -> (_value s <= max_value s)%Q ->
           effective_value s v = _value s)
       /\ ((max_value s < _value s)%Q -> effective_value s v = max_value s)
       /\ ((_value s < min_value s)%Q -> effective_value s v = min_value s))
   /\ ((min_value s < max_value s)%Q ->
       (min_value s / (max_value s - min_value s)
        <= effective_value s v / (max_value s - min_value s))%Q
       /\ (effective_value s v / (max_value s - min_value s)
           <= min_value s / (max_value s - min_value s) + 1)%Q)
   /\ ((max_value s < min_value s)%Q -> effective_value s v = min_value s))
  /\ (limit_rotation s = false -> effective_value s v = v).
Proof.
  unfold effective_value. split.
  - intros L. rewrite L.
    assert (In : (min_value s <= max_value s)%Q ->
       (min_value s <= PyQ.max (PyQ.min (_value s) (max_value s)) (min_value s))%Q
       /\ (PyQ.max (PyQ.min (_value s) (max_value s)) (min_value s)
           <= max_value s)%Q).
    { intros Le. unfold PyQ.max, PyQ.min.
      destruct (Qle_bool (_value s) (max_value s)) eqn:A.
      - apply Qle_bool_iff in A.
        destruct (Qle_bool (min_value s) (_value s)) eqn:B.
        + apply Qle_bool_iff in B. split; assumption.
        + split; [apply Qle_refl | exact Le].
      - apply Qle_bool_iff in Le as B. rewrite B. split; [exact Le | apply Qle_refl]. }
    split; [reflexivity | ].
    split.
    { intros Le. destruct (In Le) as [Lo Hi].
      split; [exact Lo | ]. split; [exact Hi | ].
      split; [intros A B; apply constrain_inside; assumption | ].
      split; [intros A; apply constrain_above; assumption | ].
      intros A. apply constrain_below; assumption. }
    split.
    { intros Lt.
      assert (Le : (min_value s <= max_value s)%Q) by (apply Qlt_le_weak; exact Lt).
      destruct (In Le) as [Lo Hi].
      set (e := PyQ.max (PyQ.min (_value s) (max_value s)) (min_value s)) in *.
      assert (Sp : (0 < max_value s - min_value s)%Q).
      { unfold Qminus. rewrite <- (Qplus_opp_r (min_value s)).
        apply Qplus_lt_le_compat; [exact Lt | apply Qle_refl]. }
      assert (Iv : (0 <= / (max_value s - min_value s))%Q).
      { apply Qlt_le_weak. apply Qinv_lt_0_compat. exact Sp. }
      split.
      - unfold Qdiv. apply Qmult_le_compat_r; assumption.
      - setoid_replace (min_value s / (max_value s - min_value s) + 1)%Q
          with (max_value s / (max_value s - min_value s))%Q.
        + unfold Qdiv. apply Qmult_le_compat_r; assumption.
        + field. intros Z0. rewrite Z0 in Sp. discriminate Sp. }
    intros Lt. unfold PyQ.max, PyQ.min.
    destruct (Qle_bool (_value s) (max_value s)) eqn:A.
    + apply Qle_bool_iff in A.
      destruct (Qle_bool (min_value s) (_value s)) eqn:B; [ | reflexivity].
      apply Qle_bool_iff in B. exfalso. apply (Qlt_irrefl (max_value s)).
      apply (Qlt_le_trans _ (min_value s)); [exact Lt | ].
      apply (Qle_trans _ (_value s)); assumption.
    + destruct (Qle_bool (min_value s) (max_value s)) eqn:B; [ | reflexivity].
      apply Qle_bool_iff in B. exfalso. apply (Qlt_irrefl (max_value s)).
      apply (Qlt_le_trans _ (min_value s)); assumption.
  - intros L. rewrite L. reflexivity.
Qed.

(** ** Customising the face *)

Lemma setter_extend (s : Dial) (calls : list draw_call) (v : Q) :
  value_setter (extend_bitmap s calls) v
  = (s' <- value_setter s v ;; Ok (extend_bitmap s' calls)).
Proof.
  unfold value_setter.
  change (_value (extend_bitmap s calls)) with (_value s).
  destruct (Qeq_bool v (_value s)); cbn [negb bind]; [reflexivity | ].
  unfold _update_needle.
  change (max_value (with_value (extend_bitmap s calls) v)) with (max_value s).
  change (min_value (with_value (extend_bitmap s calls) v)) with (min_value s).
  change (max_value (with_value s v)) with (max_value s).
  change (min_value (with_value s v)) with (min_value s).
  destruct (Qeq_bool (max_value s - min_value s) 0); cbn [bind]; reflexivity.
Qed.

Lemma setter_raises (s : Dial) (v : Q) (e : py_exception) :
  value_setter s v = Raise e -> e = ZeroDivisionError.
Proof.
  unfold value_setter. destruct (Qeq_bool v (_value s)); cbn [negb].
  - discriminate.
  - apply update_needle_raises.
Qed.

Lemma setter_geometry (s s' : Dial) (v : Q) :
  value_setter s v = Ok s' -> geometry s' = geometry (with_value s (_value s')).
Proof.
  intros H. unfold value_setter in H.
  destruct (Qeq_bool v (_value s)); cbn [negb] in H.
  - inversion H. reflexivity.
  - destruct (update_needle_cases (with_value s v) (_value (with_value s v)))
      as [[_ U] | [_ U]]; rewrite U in H; inversion H.
    reflexivity.
Qed.

(** X15: the public helpers [draw_ticks] and [draw_labels] and a
    successful assignment of a value do not interfere: when assigning
    [v] succeeds, drawing more ticks and then assigning gives the widget
    that assigning first and drawing afterwards gives, and so does
    drawing the labels whenever that succeeds.  Runs in which a call
    raises are not covered. *)
Theorem face_drawing_commutes (s s' : Dial) (n st len : Z) (v : Q) :
  value_setter s v = Ok s' ->
  value_setter (draw_ticks s n st len) v = Ok (draw_ticks s' n st len)
  /\ (forall s1, draw_labels s = Ok s1 ->
      exists s2, value_setter s1 v = Ok s2 /\ draw_labels s' = Ok s2).
Proof.
  intros E.
  pose proof (setter_geometry _ _ _ E) as Gs.
  split.
  - rewrite draw_ticks_extend, setter_extend, E. cbn [bind].
    rewrite draw_ticks_extend.
    unfold geometry in Gs.
    assert (C : _dial_center s' = _dial_center s) by (inversion Gs; reflexivity).
    assert (R : _dial_radius s' = _dial_radius s) by (inversion Gs; reflexivity).
    rewrite C, R. reflexivity.
  - intros s1 L. apply draw_labels_ok_inv in L. destruct L as [L1 E1].
    assert (Lc : label_calls s' = label_calls s).
    { rewrite (label_calls_ext _ _ Gs). reflexivity. }
    assert (Ls : seq_items (major_tick_labels s') = seq_items (major_tick_labels s)).
    { unfold geometry in Gs.
      assert (A : args s' = args s) by (inversion Gs; reflexivity).
      change (major_tick_labels s') with (major_tick_labels (args s')).
      rewrite A. reflexivity. }
    exists (extend_bitmap s' (label_calls s)).
    split.
    + rewrite E1, setter_extend, E. reflexivity.
    + rewrite draw_labels_extend by (rewrite Ls; exact L1).
      rewrite Lc. reflexivity.
Qed.

Lemma face_drawing_commutes_witness :
  exists s0 s',
    Dial__init__ cell_font default_args = Ok s0
    /\ value_setter s0 30 = Ok s'
    /\ value_setter (draw_ticks s0 9 2 7) 30 = Ok (draw_ticks s' 9 2 7)
    /\ exists s1 s2,
         draw_labels s0 = Ok s1
         /\ value_setter s1 30 = Ok s2 /\ draw_labels s' = Ok s2.
Proof.
  destruct default_dial_exists as [s0 H].
  destruct (init_well_formed _ _ _ H) as [W0 A0].
  destruct (setter_spec s0 30%Q W0) as [s' [E _]].
  exists s0, s'. split; [exact H | ]. split; [exact E | ].
  destruct (face_drawing_commutes s0 s' 9 2 7 30%Q E) as [T L].
  split; [exact T | ].
  destruct (draw_labels_ok s0) as [s1 D].
  { change (major_tick_labels s0) with (major_tick_labels (args s0)).
    rewrite A0. cbn. lia. }
  destruct (L s1 D) as [s2 [V D']].
  exists s1, s2. split; [exact D | ]. split; [exact V | exact D'].
Defined.
